(** * media-integrity-checker: a shallow embedding of
      [src/media_integrity_checker.py] and [src/main.py]

    The program walks a directory, runs a best-effort integrity check
    on every image and video file, and formats a report.  All decoding is
    delegated to Pillow, OpenCV and the [ffprobe] process; what is modelled
    here is the program's own control flow around those calls: the
    exception-to-boolean translation, the ordering of the validity checks,
    the release of the capture handle, the counters and the report.

    - Python [str] is a list of Unicode code points, so that [len] and
      slicing count what Python counts;
    - Python [int] is [Z]; Python [float] is Stdlib's [spec_float];
    - calls into the outside world are answered by an environment [Env]
      and recorded, in order, in a trace of [event]s; the calls whose
      answer depends on what happened before (seeking and reading a
      capture, writing to the console or to a file) are answered from
      that trace;
    - a Python function that may raise is a computation in the monad [M],
      which threads the trace and carries either a value or an exception. *)

From Stdlib Require Import ZArith NArith String Ascii Bool Lia List.
From Stdlib Require Import Floats.SpecFloat.
From Stdlib Require DecimalString.
Import ListNotations.

Set Implicit Arguments.

(* ================================================================= *)
(** ** Python strings *)

Module PyStr.

(** A string is the sequence of its code points. *)
Definition str := list N.

(** String literals of this file are written as UTF-8 text and decoded
    to code points, so that constants read as in the source. *)
Fixpoint utf8_decode (bs : list N) (need : nat) (acc : N) : str :=
  match bs with
  | [] => []
  | b :: bs' =>
      match need with
      | O =>
          if (b <? 128)%N then b :: utf8_decode bs' 0 0%N
          else if (b <? 224)%N then utf8_decode bs' 1 (b mod 32)%N
          else if (b <? 240)%N then utf8_decode bs' 2 (b mod 16)%N
          else utf8_decode bs' 3 (b mod 8)%N
      | S O => (acc * 64 + b mod 64)%N :: utf8_decode bs' 0 0%N
      | S n => utf8_decode bs' n (acc * 64 + b mod 64)%N
      end
  end.

Definition u (s : string) : str :=
  utf8_decode (map N_of_ascii (list_ascii_of_string s)) 0 0%N.

Fixpoint str_eqb (a b : str) : bool :=
  match a, b with
  | [], [] => true
  | x :: a', y :: b' => (x =? y)%N && str_eqb a' b'
  | _, _ => false
  end.

(** [len(s)], for a string or a list. *)
Definition len {A : Type} (s : list A) : Z := Z.of_nat (length s).

(** [str(n)] for an [int]. *)
Definition str_of_Z (n : Z) : str :=
  u (DecimalString.NilZero.string_of_int (Z.to_int n)).

(** [str(x)] for a value that may be [None]. *)
Definition str_of_opt (o : option str) : str :=
  match o with
  | Some s => s
  | None => u "None"
  end.

(** [c * n]: a one-character string repeated. *)
Definition repeat_str (c : str) (n : nat) : str := concat (repeat c n).

(** [s[:n]] for [0 <= n]. *)
Definition slice_to (n : nat) (s : str) : str := firstn n s.

(** [s[-n:]] for [0 < n]: the start index [len(s) - n] is clamped at 0. *)
Definition slice_last (n : nat) (s : str) : str := skipn (length s - n) s.

(** [format(s, '<w')]: left-justified in a field of width [w], padded with
    spaces, never truncated. *)
Definition ljust (w : nat) (s : str) : str :=
  s ++ repeat 32%N (w - length s).

(** ["\n".join(ls)] and friends. *)
Fixpoint join (sep : str) (ls : list str) : str :=
  match ls with
  | [] => []
  | [l] => l
  | l :: ls' => l ++ sep ++ join sep ls'
  end.

(** [s.strip()]: the characters for which [str.isspace] holds. *)
Definition isspace (c : N) : bool :=
  ((9 <=? c) && (c <=? 13) || (28 <=? c) && (c <=? 32) || (c =? 133)
   || (c =? 160) || (c =? 5760) || (8192 <=? c) && (c <=? 8202)
   || (c =? 8232) || (c =? 8233) || (c =? 8239) || (c =? 8287)
   || (c =? 12288))%N.

Fixpoint lstrip (s : str) : str :=
  match s with
  | c :: s' => if isspace c then lstrip s' else s
  | [] => []
  end.

Definition strip (s : str) : str := rev (lstrip (rev (lstrip s))).

(** [s.rfind(c)] for a one-character [c]: the highest index, or [-1]. *)
Fixpoint rfind_from (c : N) (s : str) (i : Z) : Z :=
  match s with
  | [] => (-1)%Z
  | x :: s' =>
      let r := rfind_from c s' (i + 1)%Z in
      if (0 <=? r)%Z then r else if (x =? c)%N then i else (-1)%Z
  end.

Definition rfind (c : N) (s : str) : Z := rfind_from c s 0%Z.

End PyStr.
Import PyStr.


(* ================================================================= *)
(** ** The Python runtime the program relies on *)

Module PyRuntime.

(** The exception classes the source tells apart.  [FileNotFoundError] and
    [PermissionError] have handlers of their own, [ValueError] is what the
    constructor raises and [main] catches, together with its subclasses
    such as [UnicodeEncodeError]; every other subclass of [Exception] is
    [OtherException].  Each carries [str(e)].  Signals that are not
    subclasses of [Exception] ([KeyboardInterrupt], [SystemExit]) are
    outside the model. *)
Inductive exn :=
| FileNotFoundError (msg : str)
| PermissionError (msg : str)
| ValueError (msg : str)
| OtherException (msg : str).

Definition exn_str (e : exn) : str :=
  match e with
  | FileNotFoundError m | PermissionError m | ValueError m
  | OtherException m => m
  end.

(** The outcome of a call: a value, or an exception raised. *)
Inductive res (A : Type) :=
| Ret (a : A)
| Raise (e : exn).
Arguments Ret {A} a.
Arguments Raise {A} e.

(** A block of a function body either falls through to the statement after
    it with a value, or executes a [return] of the enclosing function. *)
Inductive flow (R A : Type) :=
| Returned (r : R)
| Normal (a : A).
Arguments Returned {R A} r.
Arguments Normal {R A} a.

(** *** Floats *)

Definition float := spec_float.
Definition float_zero : float := S754_zero false.

(** [x <= 0] on floats: false when [x] is a NaN. *)
Definition float_le0 (x : float) : bool := SFleb x float_zero.

(** [int(x)]: truncation toward zero; NaN and the infinities raise. *)
Definition int_of_float (x : float) : res Z :=
  match x with
  | S754_zero _ => Ret 0%Z
  | S754_finite s m e =>
      let mag := Z.shiftl (Zpos m) e in
      Ret (if s then (- mag)%Z else mag)
  | S754_infinity _ =>
      Raise (OtherException (u "cannot convert float infinity to integer"))
  | S754_nan => Raise (ValueError (u "cannot convert float NaN to integer"))
  end.

(** Builtins of Python that the source calls and that are tables or
    algorithms of the interpreter, not of this repository: full Unicode
    lower-casing, the parsing of a float and its two renderings. *)
Class PyBuiltins := {
  str_lower : str -> str;            (* s.lower() *)
  float_of_str : str -> res float;   (* float(s) *)
  float_str : float -> str;          (* format(x, "") in an f-string *)
  float_fixed1 : float -> str        (* format(x, ".1f") *)
}.

(** *** [os.path] (the POSIX flavour) *)

Definition sep : N := 47%N.
Definition extsep : N := 46%N.

(** [os.path.splitext(p)]: the extension starts at the last dot of the last
    path component, unless that component consists of leading dots only up
    to there. *)
Definition splitext (p : str) : str * str :=
  let sepIndex := rfind sep p in
  let dotIndex := rfind extsep p in
  if (sepIndex <? dotIndex)%Z then
    let head := firstn (Z.to_nat dotIndex) p in
    let name := skipn (Z.to_nat (sepIndex + 1)) head in
    if existsb (fun c => negb (c =? extsep)%N) name
    then (head, skipn (Z.to_nat dotIndex) p)
    else (p, [])
  else (p, []).

(** [os.path.join(a, b)] *)
Definition os_path_join (a b : str) : str :=
  match b with
  | c :: _ =>
      if (c =? sep)%N then b
      else match rev a with
           | [] => b
           | d :: _ => if (d =? sep)%N then a ++ b else a ++ [sep] ++ b
           end
  | [] =>
      match rev a with
      | [] => []
      | d :: _ => if (d =? sep)%N then a else a ++ [sep]
      end
  end.

(** *** The outside world *)

(** What [Image.open] returns: the header fields, and what [img.load()]
    will do when the pixel data is decoded. *)
Record pil_image := {
  img_width : Z;
  img_height : Z;
  img_format : option str;
  img_load : res unit
}.

(** A decoded frame (a [numpy] array); only its presence matters. *)
Record ndarray := { rows : Z; cols : Z }.

Inductive cap_prop :=
| CAP_PROP_FRAME_COUNT
| CAP_PROP_FPS
| CAP_PROP_FRAME_WIDTH
| CAP_PROP_FRAME_HEIGHT.

(** A capture handle: the object bound to [cap]. *)
Record capture := { cap_id : nat; cap_path : str }.

(** What the program does to the outside world, in order.  A call that
    raises before it has had an effect leaves no event. *)
Inductive event :=
| EvPrint (text : str)                   (* the text reached [sys.stdout] *)
| EvOpenFile (file : str)                (* [open(file, "w")] returned: the
                                            file exists and is empty *)
| EvWriteFile (file : str) (content : str)  (* written and closed *)
| EvProbe (file : str)
| EvImageOpen (file : str)
| EvImageLoad (file : str)
| EvImageClose (file : str)
| EvCapNew (id : nat) (file : str)       (* the constructor returned a handle *)
| EvCapNewFailed (file : str)            (* the constructor raised *)
| EvCapIsOpened (id : nat)
| EvCapGet (id : nat) (prop : cap_prop)
| EvCapSeek (id : nat) (idx : Z)
| EvCapRead (id : nat)
| EvCapRelease (id : nat).

Definition World := list event.

(** The answers of the file system, of [ffprobe], of Pillow, of OpenCV and
    of the console.  Every call into a library may raise.  The position of
    a capture, the console and the files written are state: the answer
    of [cap.set], of [cap.read], of a write to [sys.stdout] and of the
    opening and writing of a file may depend on everything that happened
    before, so these are asked with the trace so far. *)
Record Env := {
  os_path_abspath : str -> str;
  os_path_isdir : str -> bool;
  os_path_relpath : str -> str -> str;
  (** [os.walk(top)]: one [(root, files)] per visited directory, in
      traversal order, [top] first. *)
  os_walk : str -> list (str * list str);
  (** [subprocess.run(['ffprobe', ...], check=True).stdout] *)
  ffprobe : str -> res str;
  Image_open : str -> res pil_image;
  VideoCapture_new : str -> res unit;
  VideoCapture_isOpened : str -> res bool;
  VideoCapture_get : str -> cap_prop -> res float;
  (** [cap.set(cv2.CAP_PROP_POS_FRAMES, idx)] *)
  VideoCapture_set : World -> capture -> Z -> res bool;
  (** [cap.read()] *)
  VideoCapture_read : World -> capture -> res (bool * option ndarray);
  (** [sys.stdout.write(text)], which raises [UnicodeEncodeError] (a
      [ValueError]) for text the console encoding cannot represent *)
  stdout_write : World -> str -> res unit;
  (** [open(file, "w", encoding="utf-8")] *)
  file_open_w : World -> str -> res unit;
  (** [f.write(text)] and the closing of [f] *)
  file_write : World -> str -> str -> res unit
}.

(** *** The monad of Python computations *)

Definition M (A : Type) := World -> res A * World.

Definition ret {A} (a : A) : M A := fun w => (Ret a, w).

Definition bind {A B} (m : M A) (k : A -> M B) : M B :=
  fun w =>
    match m w with
    | (Ret a, w') => k a w'
    | (Raise e, w') => (Raise e, w')
    end.

Definition raise {A} (e : exn) : M A := fun w => (Raise e, w).

Definition lift {A} (r : res A) : M A := fun w => (r, w).

Definition emit (ev : event) : M unit := fun w => (Ret tt, w ++ [ev]).

(** [try: m  except Exception as e: h e] *)
Definition try_except {A} (m : M A) (h : exn -> M A) : M A :=
  fun w =>
    match m w with
    | (Ret a, w') => (Ret a, w')
    | (Raise e, w') => h e w'
    end.

(** [try: m  finally: f].  [f] runs on every way out of [m]; the outcome is
    that of [m] unless [f] itself raises. *)
Definition try_finally {A} (m : M A) (f : M unit) : M A :=
  fun w =>
    match m w with
    | (r, w') =>
        match f w' with
        | (Ret _, w'') => (r, w'')
        | (Raise e, w'') => (Raise e, w'')
        end
    end.

End PyRuntime.
Import PyRuntime.

Declare Scope py_scope.
Delimit Scope py_scope with py.
Notation "x <- c1 ;; c2" := (bind c1 (fun x => c2))
  (at level 61, c1 at next level, right associativity) : py_scope.
Notation "c1 ;; c2" := (bind c1 (fun _ => c2))
  (at level 61, right associativity) : py_scope.
Open Scope py_scope.

(* ================================================================= *)
(** ** [class MediaIntegrityChecker] *)

(** One entry of [self.results] (a dict with these four keys). *)
Record result_row := {
  row_path : str;
  row_type : str;
  row_status : str;
  row_message : str
}.

(** The attributes of a checker object. *)
Record Checker := {
  directory : str;
  recursive : bool;
  report_file : option str;
  media_files : list str;
  results : list result_row;
  total_count : Z;
  ok_count : Z;
  error_count : Z
}.

Definition set_media_files (self : Checker) (fs : list str) (n : Z) : Checker :=
  {| directory := directory self; recursive := recursive self;
     report_file := report_file self; media_files := fs;
     results := results self; total_count := n;
     ok_count := ok_count self; error_count := error_count self |}.

Definition set_results (self : Checker) (rs : list result_row) (ok : Z)
  : Checker :=
  {| directory := directory self; recursive := recursive self;
     report_file := report_file self; media_files := media_files self;
     results := rs; total_count := total_count self;
     ok_count := ok; error_count := error_count self |}.

Definition set_error_count (self : Checker) (n : Z) : Checker :=
  {| directory := directory self; recursive := recursive self;
     report_file := report_file self; media_files := media_files self;
     results := results self; total_count := total_count self;
     ok_count := ok_count self; error_count := n |}.

Definition SUPPORTED_IMAGES : list str :=
  [u ".jpg"; u ".jpeg"; u ".png"; u ".gif"; u ".bmp"].
Definition SUPPORTED_VIDEOS : list str :=
  [u ".mp4"; u ".avi"; u ".mkv"; u ".mov"; u ".flv"].

(** [x in t] for a tuple of strings. *)
Definition str_in (x : str) (t : list str) : bool := existsb (str_eqb x) t.

(** [a != b] where [a] may be [None]. *)
Definition opt_str_neb (a : option str) (b : str) : bool :=
  match a with
  | Some s => negb (str_eqb s b)
  | None => true
  end.

(** Truthiness of an [Optional[str]]: [None] and the empty string are
    false. *)
Definition truthy (o : option str) : bool :=
  match o with
  | Some (_ :: _) => true
  | _ => false
  end.

(** The captures that were handed out and not released yet, oldest
    first. *)
Definition live_step (l : list nat) (ev : event) : list nat :=
  match ev with
  | EvCapNew id _ => l ++ [id]
  | EvCapRelease id => filter (fun j => negb (Nat.eqb j id)) l
  | _ => l
  end.

Definition live_captures (w : World) : list nat := fold_left live_step w [].

Section Checker.

Context {rt : PyBuiltins} (env : Env).

(** [print(text)]: the text reaches the console, or the write raises and
    nothing is shown. *)
Definition print (text : str) : M unit :=
  fun w =>
    match stdout_write env w text with
    | Ret _ => (Ret tt, w ++ [EvPrint text])
    | Raise e => (Raise e, w)
    end.

(** *** Pillow *)

Definition PIL_Image_open (file_path : str) : M pil_image :=
  emit (EvImageOpen file_path) ;; lift (Image_open env file_path).

Definition PIL_load (file_path : str) (img : pil_image) : M unit :=
  emit (EvImageLoad file_path) ;; lift (img_load img).

(** [with Image.open(file_path) as img: body]: the image is closed on
    every way out of the body; closing does not raise. *)
Definition with_Image_open {A} (file_path : str) (body : pil_image -> M A)
  : M A :=
  img <- PIL_Image_open file_path ;;
  try_finally (body img) (emit (EvImageClose file_path)).

(** *** OpenCV *)

Definition cv2_VideoCapture (file_path : str) : M capture :=
  fun w =>
    match VideoCapture_new env file_path with
    | Ret _ =>
        let id := length w in
        (Ret {| cap_id := id; cap_path := file_path |},
         w ++ [EvCapNew id file_path])
    | Raise e => (Raise e, w ++ [EvCapNewFailed file_path])
    end.

Definition cap_isOpened (cap : capture) : M bool :=
  emit (EvCapIsOpened (cap_id cap)) ;;
  lift (VideoCapture_isOpened env (cap_path cap)).

Definition cap_get (cap : capture) (prop : cap_prop) : M float :=
  emit (EvCapGet (cap_id cap) prop) ;;
  lift (VideoCapture_get env (cap_path cap) prop).

(** [cap.set(cv2.CAP_PROP_POS_FRAMES, idx)]: answered in the state the
    calls made so far have left the capture in. *)
Definition cap_set_pos (cap : capture) (idx : Z) : M bool :=
  fun w => (VideoCapture_set env w cap idx, w ++ [EvCapSeek (cap_id cap) idx]).

(** [cap.read()], likewise. *)
Definition cap_read (cap : capture) : M (bool * option ndarray) :=
  fun w => (VideoCapture_read env w cap, w ++ [EvCapRead (cap_id cap)]).

(** [cap.release()]; OpenCV's release does not raise. *)
Definition cap_release (cap : capture) : M unit :=
  emit (EvCapRelease (cap_id cap)).

(** The shape of the second [try] of [check_video_integrity]:
[[
    cap = None
    try:
        cap = cv2.VideoCapture(file_path)
        body
    except ...:
        handler
    finally:
        if cap is not None:
            cap.release()
]]
    [cap] is still [None] in the [finally] clause exactly when the
    constructor raised. *)
Definition try_capture {A} (file_path : str) (body : capture -> M A)
  (handler : exn -> M A) : M A :=
  fun w =>
    match cv2_VideoCapture file_path w with
    | (Raise e, w1) => try_finally (handler e) (ret tt) w1
    | (Ret cap, w1) =>
        try_finally (try_except (body cap) handler) (cap_release cap) w1
    end.

(** *** [__init__] *)

Definition init (dir : str) (rec : bool) (report : option str) : M Checker :=
  let self :=
    {| directory := os_path_abspath env dir; recursive := rec;
       report_file := report; media_files := []; results := [];
       total_count := 0; ok_count := 0; error_count := 0 |} in
  if negb (os_path_isdir env (directory self)) then
    raise (ValueError (u "目录 '" ++ directory self
                       ++ u "' 不存在或不是有效目录"))
  else ret self.

(** *** [scan_media_files] *)

Definition file_ext_of (file : str) : str := str_lower (snd (splitext file)).

Definition is_media (file : str) : bool :=
  str_in (file_ext_of file) SUPPORTED_IMAGES
  || str_in (file_ext_of file) SUPPORTED_VIDEOS.

Definition scan_directory (entry : str * list str) : list str :=
  map (os_path_join (fst entry)) (filter is_media (snd entry)).

Definition scan_media_files (self : Checker) : Checker :=
  let walked := os_walk env (directory self) in
  (* [if not self.recursive: break] after the first directory *)
  let visited := if recursive self then walked else firstn 1 walked in
  let found := flat_map scan_directory visited in
  set_media_files self found (len found).

(** *** [check_image_integrity] *)

Definition image_handlers (e : exn) : M (bool * str) :=
  match e with
  | FileNotFoundError _ => ret (false, u "文件不存在")
  | PermissionError _ => ret (false, u "权限不足，无法读取文件")
  | _ =>
      ret (false, u "损坏或不支持的图片格式: " ++ slice_to 100 (exn_str e))
  end.

Definition format_mismatch (file_ext : str) (fmt : option str) : str :=
  u "格式不匹配: 文件后缀为" ++ file_ext ++ u "，实际格式为"
    ++ str_of_opt fmt.

Definition check_image_body (file_path : str) (img : pil_image)
  : M (flow (bool * str) unit) :=
  if (img_width img <=? 0)%Z || (img_height img <=? 0)%Z then
    ret (Returned (false, u "无效图片尺寸: " ++ str_of_Z (img_width img)
                            ++ u "x" ++ str_of_Z (img_height img)))
  else
    PIL_load file_path img ;;
    let file_ext := file_ext_of file_path in
    if str_eqb file_ext (u ".jpg") && opt_str_neb (img_format img) (u "JPEG")
    then ret (Returned (false, format_mismatch file_ext (img_format img)))
    else if str_eqb file_ext (u ".png")
            && opt_str_neb (img_format img) (u "PNG")
    then ret (Returned (false, format_mismatch file_ext (img_format img)))
    else ret (Normal tt).

Definition check_image_integrity (file_path : str) : M (bool * str) :=
  try_except
    (r <- with_Image_open file_path (check_image_body file_path) ;;
     match r with
     | Returned v => ret v
     | Normal _ => ret (true, u "图片正常")
     end)
    image_handlers.

(** *** [check_video_integrity] *)

(** The first [try]: the duration asked of [ffprobe]. *)
Definition probe_duration (file_path : str) : M (flow (bool * str) float) :=
  try_except
    (stdout <- (emit (EvProbe file_path) ;; lift (ffprobe env file_path)) ;;
     duration <- lift (float_of_str (strip stdout)) ;;
     if float_le0 duration then
       ret (Returned (false, u "无效视频时长: " ++ float_str duration
                               ++ u "秒"))
     else ret (Normal duration))
    (fun e =>
       match e with
       | FileNotFoundError _ => ret (Normal float_zero)   (* pass *)
       | _ => ret (Returned (false, u "ffprobe检测失败: "
                                      ++ slice_to 80 (exn_str e)))
       end).

Definition test_frames (frame_count : Z) : list Z :=
  [0; Z.min 100 (frame_count / 2); Z.max 0 (frame_count - 5)]%Z.

Definition frame_failed (frame_idx : Z) : str :=
  u "帧" ++ str_of_Z frame_idx ++ u "读取失败，视频可能损坏".

(** [for frame_idx in test_frames: ...] *)
Fixpoint read_frames (cap : capture) (idxs : list Z)
  : M (flow (bool * str) unit) :=
  match idxs with
  | [] => ret (Normal tt)
  | frame_idx :: rest =>
      cap_set_pos cap frame_idx ;;
      rf <- cap_read cap ;;
      match rf with
      | (true, Some _) => read_frames cap rest
      | _ => ret (Returned (false, frame_failed frame_idx))
      end
  end.

Definition video_ok (duration : float) (width height frame_count : Z) : str :=
  u "视频正常 (时长: " ++ float_fixed1 duration ++ u "秒, 分辨率: "
    ++ str_of_Z width ++ u "x" ++ str_of_Z height ++ u ", 帧数: "
    ++ str_of_Z frame_count ++ u ")".

Definition check_video_body (duration : float) (cap : capture)
  : M (bool * str) :=
  opened <- cap_isOpened cap ;;
  if negb opened then ret (false, u "无法打开视频文件，可能已损坏")
  else
    frame_count <- (x <- cap_get cap CAP_PROP_FRAME_COUNT ;;
                    lift (int_of_float x)) ;;
    fps <- cap_get cap CAP_PROP_FPS ;;
    width <- (x <- cap_get cap CAP_PROP_FRAME_WIDTH ;;
              lift (int_of_float x)) ;;
    height <- (x <- cap_get cap CAP_PROP_FRAME_HEIGHT ;;
               lift (int_of_float x)) ;;
    if (frame_count <=? 0)%Z then
      ret (false, u "无效帧数: " ++ str_of_Z frame_count)
    else if float_le0 fps then
      ret (false, u "无效帧率: " ++ float_str fps)
    else if (width <=? 0)%Z || (height <=? 0)%Z then
      ret (false, u "无效视频尺寸: " ++ str_of_Z width ++ u "x"
                    ++ str_of_Z height)
    else
      r <- read_frames cap (test_frames frame_count) ;;
      match r with
      | Returned v => ret v
      | Normal _ => ret (true, video_ok duration width height frame_count)
      end.

Definition video_handlers (e : exn) : M (bool * str) :=
  match e with
  | FileNotFoundError _ => ret (false, u "文件不存在")
  | PermissionError _ => ret (false, u "权限不足，无法读取文件")
  | _ =>
      ret (false, u "损坏或不支持的视频格式: " ++ slice_to 100 (exn_str e))
  end.

(** The second [try]: frame checks through OpenCV. *)
Definition check_video_frames (duration : float) (file_path : str)
  : M (bool * str) :=
  try_capture file_path (check_video_body duration) video_handlers.

Definition check_video_integrity (file_path : str) : M (bool * str) :=
  p <- probe_duration file_path ;;
  match p with
  | Returned v => ret v
  | Normal duration => check_video_frames duration file_path
  end.

(** *** [run_checks] *)

Definition STATUS_OK : str := u "✅ 正常".
Definition STATUS_BAD : str := u "❌ 损坏".
Definition nl : str := [10%N].

(** One iteration of the loop over [enumerate(self.media_files, 1)]. *)
Definition check_file (self : Checker) (idx : Z) (file_path : str)
  : M Checker :=
  let relative_path := os_path_relpath env file_path (directory self) in
  let file_ext := file_ext_of file_path in
  print (u "[" ++ str_of_Z idx ++ u "/" ++ str_of_Z (total_count self)
           ++ u "] 检测: " ++ relative_path) ;;
  checked <-
    (if str_in file_ext SUPPORTED_IMAGES then
       r <- check_image_integrity file_path ;; ret (r, u "IMAGE")
     else
       r <- check_video_integrity file_path ;; ret (r, u "VIDEO")) ;;
  let is_ok := fst (fst checked) in
  let message := snd (fst checked) in
  let file_type := snd checked in
  let status := if is_ok then STATUS_OK else STATUS_BAD in
  print (u "     状态: " ++ status ++ u " - " ++ message ++ nl) ;;
  ret (set_results self
         (results self
            ++ [{| row_path := relative_path; row_type := file_type;
                   row_status := status; row_message := message |}])
         (if is_ok then ok_count self + 1 else ok_count self)%Z).

Fixpoint check_files (self : Checker) (idx : Z) (files : list str)
  : M Checker :=
  match files with
  | [] => ret self
  | file_path :: rest =>
      self' <- check_file self idx file_path ;;
      check_files self' (idx + 1)%Z rest
  end.

Definition run_checks (self : Checker) : M Checker :=
  let self1 :=
    match media_files self with
    | [] => scan_media_files self
    | _ :: _ => self
    end in
  match media_files self1 with
  | [] => ret self1
  | _ :: _ =>
      self2 <- check_files (set_results self1 [] 0%Z) 1%Z
                 (media_files self1) ;;
      ret (set_error_count self2 (total_count self2 - ok_count self2)%Z)
  end.

(** *** [generate_report] *)

Definition display_path (path : str) : str :=
  if (len path <=? 50)%Z then path else u "..." ++ slice_last 47 path.

Definition report_row (res : result_row) : str :=
  ljust 50 (display_path (row_path res)) ++ u " "
    ++ ljust 8 (row_type res) ++ u " "
    ++ ljust 10 (row_status res) ++ u " " ++ row_message res.

Definition report_header (self : Checker) : list str :=
  [ repeat_str (u "=") 80;
    u "媒体文件完整性检测报告";
    repeat_str (u "=") 80;
    u "检测目录: " ++ directory self;
    u "扫描模式: "
      ++ (if recursive self then u "递归扫描" else u "当前目录");
    u "检测总数: " ++ str_of_Z (total_count self) ++ u " 个";
    u "正常文件: " ++ str_of_Z (ok_count self) ++ u " 个";
    u "损坏文件: " ++ str_of_Z (error_count self) ++ u " 个";
    nl ++ u "详细结果:";
    repeat_str (u "-") 80;
    ljust 50 (u "文件路径") ++ u " " ++ ljust 8 (u "类型") ++ u " "
      ++ ljust 10 (u "状态") ++ u " " ++ u "说明";
    repeat_str (u "-") 80 ].

Definition generate_report (self : Checker) : list str :=
  report_header self ++ map report_row (results self).

(** *** [save_report] *)

(** [with open(file, "w", encoding="utf-8") as f: f.write(text)]: [open]
    creates or empties the file, or raises; when [f.write] raises the
    file is closed on the way out and stays empty. *)
Definition write_text_file (file text : str) : M unit :=
  fun w =>
    match file_open_w env w file with
    | Raise e => (Raise e, w)
    | Ret _ =>
        let w1 := w ++ [EvOpenFile file] in
        match file_write env w1 file text with
        | Raise e => (Raise e, w1)
        | Ret _ => (Ret tt, w1 ++ [EvWriteFile file text])
        end
    end.

Definition save_report (self : Checker) (report : list str) : M unit :=
  match report_file self with
  | Some (c :: f) =>
      write_text_file (c :: f) (join nl report) ;;
      print (nl ++ u "完整报告已保存到: " ++ os_path_abspath env (c :: f))
  | _ => ret tt
  end.

(** *** [run] *)

Definition run (self : Checker) : M Checker :=
  print (u "正在扫描目录: " ++ directory self ++ u " "
           ++ (if recursive self then u "(递归模式)" else [])) ;;
  let self1 := scan_media_files self in
  match media_files self1 with
  | [] => print (u "未发现支持的媒体文件") ;; ret self1
  | _ :: _ =>
      print (u "发现 " ++ str_of_Z (total_count self1)
               ++ u " 个媒体文件，开始检测..." ++ nl) ;;
      self2 <- run_checks self1 ;;
      let report := generate_report self2 in
      print (nl ++ join nl (firstn 8 report)) ;;
      (if truthy (report_file self2) then save_report self2 report
       else print (join nl (skipn 8 report))) ;;
      ret self2
  end.

(** *** [main] *)

(** The parsed command line. *)
Record Args := {
  arg_dir : str;
  arg_recursive : bool;
  arg_report : option str
}.

(** [main] yields the checker it ran, if it got so far, and the status the
    process exits with: [exit(1)] in the [ValueError] handler, [0] when
    [main] returns.  An exception of another class, or one raised by the
    handler's own [print], leaves [main]. *)
Definition main (args : Args) : M (option Checker * Z) :=
  try_except
    (checker <- init (arg_dir args) (arg_recursive args) (arg_report args) ;;
     checker' <- run checker ;;
     ret (Some checker', 0%Z))
    (fun e =>
       match e with
       | ValueError msg => print (u "错误：" ++ msg) ;; ret (None, 1%Z)
       | _ => raise e
       end).

End Checker.

(** The status the process ends with: the one [main] passes to [exit],
    0 when [main] returns, and 1 when an exception leaves [main] and the
    interpreter prints its traceback. *)
Definition exit_status (r : res (option Checker * Z)) : Z :=
  match r with
  | Ret (_, status) => status
  | Raise _ => 1%Z
  end.

(** A result row counts as passed when it carries the glyph of success. *)
Definition row_ok (r : result_row) : bool := str_eqb (row_status r) STATUS_OK.

(* ================================================================= *)
(** ** A concrete runtime and file system, to run the model *)

Module Fixture.

(** Lower-casing restricted to ASCII letters; it agrees with [str.lower]
    on ASCII strings. *)
Definition ascii_lower (s : str) : str :=
  map (fun c => if ((65 <=? c) && (c <=? 90))%N then (c + 32)%N else c) s.

(** Binary64 numbers. *)
Definition float_of_Z (n : Z) : float := binary_normalize 53 1024 n 0 false.

Fixpoint digits_value (s : str) (acc : Z) : option Z :=
  match s with
  | [] => Some acc
  | c :: s' =>
      if ((48 <=? c) && (c <=? 57))%N
      then digits_value s' (acc * 10 + Z.of_N (c - 48))%Z
      else None
  end.

Fixpoint split_dot (s : str) : str * option str :=
  match s with
  | [] => ([], None)
  | c :: s' =>
      if (c =? 46)%N then ([], Some s')
      else let (a, b) := split_dot s' in (c :: a, b)
  end.

(** [float(s)] for plain decimal numerals ([12], [12.5], [-0.25]) of at
    most fifteen digits: the quotient of two exactly represented integers,
    correctly rounded.  Anything else is a [ValueError]. *)
Definition decimal_float (s : str) : res float :=
  let bad := Raise (ValueError (u "could not convert string to float: '"
                                ++ s ++ u "'")) in
  let (neg, body) :=
    match s with
    | c :: s' => if (c =? 45)%N then (true, s') else (false, s)
    | [] => (false, s)
    end in
  let (ip, fp) := split_dot body in
  let frac := match fp with Some f => f | None => [] end in
  match ip ++ frac, digits_value (ip ++ frac) 0%Z with
  | _ :: _, Some n =>
      let x := SFdiv 53 1024 (float_of_Z n)
                 (float_of_Z (10 ^ Z.of_nat (length frac))) in
      Ret (if neg then SFopp x else x)
  | _, _ => bad
  end.

Definition signed (s : bool) (t : str) : str := if s then u "-" ++ t else t.

(** [format(x, ".1f")]: one decimal, the exact value rounded half to
    even. *)
Definition fixed1 (x : float) : str :=
  match x with
  | S754_nan => u "nan"
  | S754_infinity s => signed s (u "inf")
  | S754_zero s => signed s (u "0.0")
  | S754_finite s m e =>
      let num := (Zpos m * 10 * 2 ^ Z.max e 0)%Z in
      let den := (2 ^ Z.max (- e) 0)%Z in
      let q := (num / den)%Z in
      let r := (num mod den)%Z in
      let q' := if (2 * r <? den)%Z then q
                else if (den <? 2 * r)%Z then (q + 1)%Z
                else if Z.even q then q else (q + 1)%Z in
      signed s (str_of_Z (q' / 10) ++ u "." ++ str_of_Z (q' mod 10))
  end.

Fixpoint rstrip0 (rev_digits : str) : str :=
  match rev_digits with
  | c :: s' => if (c =? 48)%N then rstrip0 s' else rev_digits
  | [] => []
  end.

(** [str(x)], as the exact decimal expansion; this is Python's shortest
    rendering for the floats used below (integers and short dyadic
    fractions). *)
Definition exact_str (x : float) : str :=
  match x with
  | S754_nan => u "nan"
  | S754_infinity s => signed s (u "inf")
  | S754_zero s => signed s (u "0.0")
  | S754_finite s m e =>
      let k := Z.max (- e) 0 in
      let n := (Zpos m * 2 ^ Z.max e 0 * 5 ^ k)%Z in
      let ip := str_of_Z (n / 10 ^ k) in
      let fdigits := str_of_Z (n mod 10 ^ k) in
      let padded :=
        repeat 48%N (Z.to_nat k - length fdigits) ++ fdigits in
      let f := rev (rstrip0 (rev padded)) in
      signed s (ip ++ u "." ++ match f with [] => u "0" | _ => f end)
  end.

#[export] Instance builtins : PyBuiltins := {
  str_lower := ascii_lower;
  float_of_str := decimal_float;
  float_str := exact_str;
  float_fixed1 := fixed1
}.

(** A video as OpenCV and [ffprobe] see it.  What a read delivers depends
    on what was done to the handle before: [v_read] is given the trace so
    far and the handle. *)
Record video_file := {
  v_probe : res str;
  v_new : res unit;
  v_opened : res bool;
  v_prop : cap_prop -> res float;
  v_seek : Z -> res bool;
  v_read : World -> nat -> res (bool * option ndarray)
}.

(** The frame index a capture was last asked to seek to: where the next
    read takes place in a video whose seeks all land. *)
Definition seek_step (id : nat) (pos : Z) (ev : event) : Z :=
  match ev with
  | EvCapSeek j idx => if Nat.eqb j id then idx else pos
  | _ => pos
  end.

Definition position (id : nat) (w : World) : Z :=
  fold_left (seek_step id) w 0%Z.

(** How many frames were read from a capture. *)
Definition reads_so_far (id : nat) (w : World) : nat :=
  length (filter (fun ev => match ev with
                            | EvCapRead j => Nat.eqb j id
                            | _ => false
                            end) w).

(** [sys.stdout] and a report file encode as UTF-8 with [errors='strict'].
    A lone surrogate (what [os.walk] yields for a byte of a file name
    that is not UTF-8) cannot be encoded: [UnicodeEncodeError], a
    [ValueError]. *)
Definition is_surrogate (c : N) : bool := ((55296 <=? c) && (c <=? 57343))%N.

Definition utf8_strict (text : str) : res unit :=
  if existsb is_surrogate text
  then Raise (ValueError (u "'utf-8' codec can't encode character: "
                            ++ u "surrogates not allowed"))
  else Ret tt.

(** The one path no file can be created at. *)
Definition unwritable : str := u "/readonly/out.txt".

Inductive content :=
| ImageFile (img : res pil_image)
| VideoFile (v : video_file).

(** The files of one directory, by name. *)
Definition disk := list (str * content).

Fixpoint lookup (root : str) (d : disk) (file_path : str) : option content :=
  match d with
  | [] => None
  | (name, c) :: d' =>
      if str_eqb (os_path_join root name) file_path then Some c
      else lookup root d' file_path
  end.

Fixpoint strip_prefix (pre s : str) : option str :=
  match pre, s with
  | [], _ => Some s
  | a :: pre', b :: s' => if (a =? b)%N then strip_prefix pre' s' else None
  | _ :: _, [] => None
  end.

Definition no_such_file : exn :=
  FileNotFoundError (u "[Errno 2] No such file or directory").
Definition not_an_image : exn :=
  OtherException (u "cannot identify image file").
Definition probe_failed : exn :=
  OtherException (u "Command '['ffprobe', ...]' returned non-zero exit status 1.").

Definition env_of (root : str) (d : disk) : Env :=
  {| os_path_abspath := fun p => p;
     os_path_isdir := fun p => str_eqb p root;
     os_path_relpath := fun p start =>
       match strip_prefix (start ++ [sep]) p with
       | Some r => r
       | None => p
       end;
     os_walk := fun top =>
       if str_eqb top root then [(root, map fst d)] else [];
     ffprobe := fun p =>
       match lookup root d p with
       | Some (VideoFile v) => v_probe v
       | _ => Raise probe_failed
       end;
     Image_open := fun p =>
       match lookup root d p with
       | Some (ImageFile img) => img
       | Some (VideoFile _) => Raise not_an_image
       | None => Raise no_such_file
       end;
     VideoCapture_new := fun p =>
       match lookup root d p with
       | Some (VideoFile v) => v_new v
       | _ => Ret tt
       end;
     VideoCapture_isOpened := fun p =>
       match lookup root d p with
       | Some (VideoFile v) => v_opened v
       | _ => Ret false
       end;
     VideoCapture_get := fun p prop =>
       match lookup root d p with
       | Some (VideoFile v) => v_prop v prop
       | _ => Ret float_zero
       end;
     VideoCapture_set := fun _ cap idx =>
       match lookup root d (cap_path cap) with
       | Some (VideoFile v) => v_seek v idx
       | _ => Ret false
       end;
     VideoCapture_read := fun w cap =>
       match lookup root d (cap_path cap) with
       | Some (VideoFile v) => v_read v w (cap_id cap)
       | _ => Ret (false, None)
       end;
     stdout_write := fun _ text => utf8_strict text;
     file_open_w := fun _ file =>
       if str_eqb file unwritable
       then Raise (PermissionError
                     (u "[Errno 13] Permission denied: '/readonly/out.txt'"))
       else Ret tt;
     file_write := fun _ _ text => utf8_strict text |}.

(** The same world seen through a console that replaces what it cannot
    encode ([errors="replace"]) and so never raises. *)
Definition with_lenient_console (env : Env) : Env :=
  {| os_path_abspath := os_path_abspath env;
     os_path_isdir := os_path_isdir env;
     os_path_relpath := os_path_relpath env;
     os_walk := os_walk env;
     ffprobe := ffprobe env;
     Image_open := Image_open env;
     VideoCapture_new := VideoCapture_new env;
     VideoCapture_isOpened := VideoCapture_isOpened env;
     VideoCapture_get := VideoCapture_get env;
     VideoCapture_set := VideoCapture_set env;
     VideoCapture_read := VideoCapture_read env;
     stdout_write := fun _ _ => Ret tt;
     file_open_w := file_open_w env;
     file_write := file_write env |}.

(** The same world where, moreover, every file can be created and takes
    any text. *)
Definition lenient (env : Env) : Env :=
  {| os_path_abspath := os_path_abspath env;
     os_path_isdir := os_path_isdir env;
     os_path_relpath := os_path_relpath env;
     os_walk := os_walk env;
     ffprobe := ffprobe env;
     Image_open := Image_open env;
     VideoCapture_new := VideoCapture_new env;
     VideoCapture_isOpened := VideoCapture_isOpened env;
     VideoCapture_get := VideoCapture_get env;
     VideoCapture_set := VideoCapture_set env;
     VideoCapture_read := VideoCapture_read env;
     stdout_write := fun _ _ => Ret tt;
     file_open_w := fun _ _ => Ret tt;
     file_write := fun _ _ _ => Ret tt |}.

(** An image that decodes. *)
Definition image (w h : Z) (fmt : string) : content :=
  ImageFile (Ret {| img_width := w; img_height := h;
                    img_format := Some (u fmt); img_load := Ret tt |}).

(** An image whose header parses and whose pixel data is truncated. *)
Definition truncated_image (w h : Z) (fmt : string) : content :=
  ImageFile (Ret {| img_width := w; img_height := h;
                    img_format := Some (u fmt);
                    img_load := Raise (OtherException
                                         (u "image file is truncated")) |}).

Definition frame : ndarray := {| rows := 720; cols := 1280 |}.

(** A video of [frame_count] frames of 1280x720 at [fps] in which every
    seek lands on the frame asked for, and of which the frames listed in
    [bad] cannot be read. *)
Definition video (probe : res str) (frame_count fps : Z) (bad : list Z)
  : content :=
  VideoFile
    {| v_probe := probe;
       v_new := Ret tt;
       v_opened := Ret true;
       v_prop := fun prop =>
         Ret (float_of_Z match prop with
                         | CAP_PROP_FRAME_COUNT => frame_count
                         | CAP_PROP_FPS => fps
                         | CAP_PROP_FRAME_WIDTH => 1280
                         | CAP_PROP_FRAME_HEIGHT => 720
                         end);
       v_seek := fun _ => Ret true;
       v_read := fun w id =>
         if existsb (Z.eqb (position id w)) bad then Ret (false, None)
         else Ret (true, Some frame) |}.

(** A video that holds a single frame: the first read of a handle
    delivers it and leaves the decoder at the end of the stream; seeking
    to frame 0 again does not bring the frame back, every further read
    fails. *)
Definition one_frame_video : content :=
  VideoFile
    {| v_probe := Ret (u "0.04" ++ [10%N]);
       v_new := Ret tt;
       v_opened := Ret true;
       v_prop := fun prop =>
         Ret (float_of_Z match prop with
                         | CAP_PROP_FRAME_COUNT => 1
                         | CAP_PROP_FPS => 25
                         | CAP_PROP_FRAME_WIDTH => 1280
                         | CAP_PROP_FRAME_HEIGHT => 720
                         end);
       v_seek := fun _ => Ret true;
       v_read := fun w id =>
         match reads_so_far id w with
         | O => Ret (true, Some frame)
         | S _ => Ret (false, None)
         end |}.

(** A zero-byte file with a video extension: nothing opens it. *)
Definition empty_video : content :=
  VideoFile
    {| v_probe := Raise probe_failed;
       v_new := Ret tt;
       v_opened := Ret false;
       v_prop := fun _ => Ret float_zero;
       v_seek := fun _ => Ret false;
       v_read := fun _ _ => Ret (false, None) |}.

Definition ffprobe_missing : res str :=
  Raise (FileNotFoundError
           (u "[Errno 2] No such file or directory: 'ffprobe'")).

Definition root : str := u "/media".

Definition sample_disk : disk :=
  [ (u "a.jpg", image 100 100 "JPEG");
    (u "photo.jpg", image 64 48 "PNG");
    (u "photo.jpeg", image 64 48 "PNG");
    (u "anim.gif", image 10 10 "PNG");
    (u "cut.png", truncated_image 32 32 "PNG");
    (u "clip.mp4", video (Ret (u "12.5" ++ nl)) 300 25 []);
    (u "tail.mp4", video ffprobe_missing 300 25 [295%Z]);
    (u "still.avi", video (Ret (u "4.0" ++ nl)) 10 0 []);
    (u "live.flv", video (Ret (u "0.0" ++ nl)) 300 25 []);
    (u "zero.mkv", empty_video);
    (u "notes.txt", image 1 1 "PNG") ].

Definition sample_env : Env := env_of root sample_disk.

(** The checker [MediaIntegrityChecker("/media")] right after
    construction. *)
Definition sample_checker : Checker :=
  {| directory := root; recursive := false; report_file := None;
     media_files := []; results := []; total_count := 0; ok_count := 0;
     error_count := 0 |}.

Definition sample_args : Args :=
  {| arg_dir := root; arg_recursive := false; arg_report := None |}.

Definition missing_args : Args :=
  {| arg_dir := u "/nowhere"; arg_recursive := false; arg_report := None |}.

End Fixture.

(* ================================================================= *)
(** ** Properties of computations *)

(** [m] only appends to the trace, and every event it appends
    satisfies [P]. *)
Definition appends {A} (P : event -> Prop) (m : M A) : Prop :=
  forall w, exists evs, snd (m w) = w ++ evs /\ Forall P evs.

(** [m] never raises. *)
Definition total {A} (m : M A) : Prop :=
  forall w, exists a w', m w = (Ret a, w').

(** Events that neither hand out nor release a capture. *)
Definition neutral (ev : event) : Prop :=
  match ev with
  | EvCapNew _ _ | EvCapRelease _ => False
  | _ => True
  end.

(** [m] leaves the trace extended by events among which every capture
    handed out has been released. *)
Definition balanced {A} (m : M A) : Prop :=
  forall w, exists evs, snd (m w) = w ++ evs /\ live_captures evs = [].

(** The frame indices a trace seeks to, in order. *)
Definition seeks (evs : list event) : list Z :=
  flat_map (fun ev => match ev with EvCapSeek _ idx => [idx] | _ => [] end)
           evs.

Definition is_FileNotFoundError (e : exn) : bool :=
  match e with
  | FileNotFoundError _ => true
  | _ => false
  end.

(** The events of seeking to each of [idxs] in turn and reading a frame
    there. *)
Fixpoint sampling_trace (id : nat) (idxs : list Z) : list event :=
  match idxs with
  | [] => []
  | i :: rest => EvCapSeek id i :: EvCapRead id :: sampling_trace id rest
  end.

(** What seeking to [idx] and reading a frame comes to for a capture, in
    the state the trace [w] has left it in: the frame is delivered, or the
    read reports failure or hands back no frame, or one of the two calls
    raises. *)
Inductive sample_outcome :=
| FrameRead
| NoFrame
| SampleRaised (e : exn).

Definition sample (env : Env) (cap : capture) (w : World) (idx : Z)
  : sample_outcome :=
  match VideoCapture_set env w cap idx with
  | Raise e => SampleRaised e
  | Ret _ =>
      match VideoCapture_read env (w ++ [EvCapSeek (cap_id cap) idx]) cap with
      | Ret (true, Some _) => FrameRead
      | Ret _ => NoFrame
      | Raise e => SampleRaised e
      end
  end.

(** Sampled in turn from the state [w], each of the first [k] of [idxs]
    delivers a frame. *)
Definition reads_through (env : Env) (cap : capture) (w : World)
  (idxs : list Z) (k : nat) : Prop :=
  forall j, j < k ->
    sample env cap (w ++ sampling_trace (cap_id cap) (firstn j idxs))
      (nth j idxs 0%Z) = FrameRead.

(** The console takes every text. *)
Definition console_ok (env : Env) : Prop :=
  forall w text, stdout_write env w text = Ret tt.

(** Every file can be created and written. *)
Definition files_ok (env : Env) : Prop :=
  forall w file,
    file_open_w env w file = Ret tt
    /\ forall text, file_write env w file text = Ret tt.

(** [e] is what a write to the console raises in the state [w]. *)
Definition console_raises (env : Env) (w : World) (e : exn) : Prop :=
  exists text, stdout_write env w text = Raise e.

(** [e] is what a write to the console, or the opening or the writing of
    a file raises in the state [w]. *)
Definition output_raises (env : Env) (w : World) (e : exn) : Prop :=
  console_raises env w e
  \/ (exists file, file_open_w env w file = Raise e)
  \/ (exists file text, file_write env w file text = Raise e).

(** The newline characters of a text, and its lines: what
    [len(text.split("\n"))] counts. *)
Definition count_nl (text : str) : nat := length (filter (N.eqb 10) text).

Definition line_count (text : str) : nat := S (count_nl text).

(** How many of the rows passed. *)
Definition count_ok (rows : list result_row) : Z := len (filter row_ok rows).

(** [self'] is [self] after [rows] were appended to [self.results] and
    the rows that passed were added to [self.ok_count]; every other
    attribute is unchanged. *)
Definition extends_by (self self' : Checker) (rows : list result_row)
  : Prop :=
  self' = set_results self (results self ++ rows)
            (ok_count self + count_ok rows)%Z.

(** A row as [run_checks] builds it from the answer of a check. *)
Definition row_of (relative_path file_type : str) (answer : bool * str)
  : result_row :=
  {| row_path := relative_path; row_type := file_type;
     row_status := if fst answer then STATUS_OK else STATUS_BAD;
     row_message := snd answer |}.

(** A checker as the constructor leaves it. *)
Definition fresh (self : Checker) : Prop :=
  media_files self = [] /\ results self = []
  /\ total_count self = 0%Z /\ ok_count self = 0%Z
  /\ error_count self = 0%Z.

(* ================================================================= *)
(** ** Further notions used by the properties below *)

(** Events of a check proper: calls to [ffprobe], Pillow and OpenCV, as
    opposed to what the program prints or writes. *)
Definition device_event (ev : event) : Prop :=
  match ev with
  | EvPrint _ | EvOpenFile _ | EvWriteFile _ _ => False
  | _ => True
  end.

(** Events that touch no file the program writes. *)
Definition not_write (ev : event) : Prop :=
  match ev with
  | EvOpenFile _ | EvWriteFile _ _ => False
  | _ => True
  end.

(** The files a trace writes, with their contents, in order. *)
Definition writes (evs : list event) : list (str * str) :=
  flat_map (fun ev => match ev with
                      | EvWriteFile file content => [(file, content)]
                      | _ => []
                      end) evs.


(** The files a trace opens for writing, in order. *)
Definition opens (evs : list event) : list str :=
  flat_map (fun ev => match ev with
                      | EvOpenFile file => [file]
                      | _ => []
                      end) evs.

(** The message of the [except] clauses of [check_image_integrity], by
    class of exception. *)
Definition image_failure (e : exn) : str :=
  match e with
  | FileNotFoundError _ => u "文件不存在"
  | PermissionError _ => u "权限不足，无法读取文件"
  | _ => u "损坏或不支持的图片格式: " ++ slice_to 100 (exn_str e)
  end.

(** The same for the second [try] of [check_video_integrity]. *)
Definition video_failure (e : exn) : str :=
  match e with
  | FileNotFoundError _ => u "文件不存在"
  | PermissionError _ => u "权限不足，无法读取文件"
  | _ => u "损坏或不支持的视频格式: " ++ slice_to 100 (exn_str e)
  end.

Module Nested.
Import Fixture.

(** A directory with one sub-directory: [os.walk] yields the top
    directory first. *)
Definition walked : list (str * list str) :=
  [ (u "/media", [u "a.jpg"; u "notes.txt"; u "CLIP.MP4"]);
    (u "/media/sub", [u "b.png"; u "readme"]) ].

Definition env : Env :=
  {| os_path_abspath := os_path_abspath sample_env;
     os_path_isdir := os_path_isdir sample_env;
     os_path_relpath := os_path_relpath sample_env;
     os_walk := fun top => if str_eqb top root then walked else [];
     ffprobe := ffprobe sample_env;
     Image_open := Image_open sample_env;
     VideoCapture_new := VideoCapture_new sample_env;
     VideoCapture_isOpened := VideoCapture_isOpened sample_env;
     VideoCapture_get := VideoCapture_get sample_env;
     VideoCapture_set := VideoCapture_set sample_env;
     VideoCapture_read := VideoCapture_read sample_env;
     stdout_write := stdout_write sample_env;
     file_open_w := file_open_w sample_env;
     file_write := file_write sample_env |}.

Definition recursive_checker : Checker :=
  {| directory := root; recursive := true; report_file := None;
     media_files := []; results := []; total_count := 0; ok_count := 0;
     error_count := 0 |}.

(** A video whose frame count OpenCV reports as NaN. *)
Definition nan_video : content :=
  VideoFile
    {| v_probe := ffprobe_missing;
       v_new := Ret tt;
       v_opened := Ret true;
       v_prop := fun _ => Ret S754_nan;
       v_seek := fun _ => Ret true;
       v_read := fun _ _ => Ret (true, Some frame) |}.

Definition odd_disk : disk :=
  [ (u "flat.png", image 0 10 "PNG");
    (u "nan.mp4", nan_video);
    (u "zero.mkv",
     VideoFile {| v_probe := ffprobe_missing;
                  v_new := Ret tt;
                  v_opened := Ret false;
                  v_prop := fun _ => Ret float_zero;
                  v_seek := fun _ => Ret false;
                  v_read := fun _ _ => Ret (false, None) |}) ].

Definition odd_env : Env := env_of root odd_disk.

(** A checker that writes its report to [out.txt]. *)
Definition reporting_checker : Checker :=
  {| directory := root; recursive := false;
     report_file := Some (u "out.txt");
     media_files := []; results := []; total_count := 0; ok_count := 0;
     error_count := 0 |}.

End Nested.

Module Faulty.
Import Fixture.

(** A file whose name holds the byte 0xE9, which is not UTF-8: [os.walk]
    hands the byte on as the lone surrogate U+DCE9. *)
Definition latin1_name : str := u "caf" ++ [56553%N] ++ u ".jpg".

Definition disk : Fixture.disk :=
  [ (u "cut.png", truncated_image 32 32 "PNG");
    (latin1_name, truncated_image 100 100 "JPEG");
    (u "b.jpg", image 100 100 "JPEG") ].

Definition env : Env := env_of root disk.

(** A directory with a video of a single frame. *)
Definition short_env : Env := env_of root [(u "one.mp4", one_frame_video)].

(** A stream that cannot seek: [cap.set] answers [False] and the reads
    deliver the frames one after the other. *)
Definition stream_env : Env :=
  env_of root
    [(u "live.mp4",
      VideoFile {| v_probe := ffprobe_missing;
                   v_new := Ret tt;
                   v_opened := Ret true;
                   v_prop := fun prop =>
                     Ret (float_of_Z match prop with
                                     | CAP_PROP_FRAME_COUNT => 300
                                     | CAP_PROP_FPS => 25
                                     | CAP_PROP_FRAME_WIDTH => 1280
                                     | CAP_PROP_FRAME_HEIGHT => 720
                                     end);
                   v_seek := fun _ => Ret false;
                   v_read := fun _ _ => Ret (true, Some frame) |})].

Definition report_args : Args :=
  {| arg_dir := root; arg_recursive := false;
     arg_report := Some (u "out.txt") |}.

End Faulty.

(** The trace when the frames are about to be sampled: the capture was
    constructed in the state [w1], asked whether it is open, and asked
    for its four properties. *)
Definition sampling_start (w1 : World) (file_path : str) : World :=
  w1 ++ [EvCapNew (length w1) file_path; EvCapIsOpened (length w1);
         EvCapGet (length w1) CAP_PROP_FRAME_COUNT;
         EvCapGet (length w1) CAP_PROP_FPS;
         EvCapGet (length w1) CAP_PROP_FRAME_WIDTH;
         EvCapGet (length w1) CAP_PROP_FRAME_HEIGHT].

(** An image that passes: it opens, has positive dimensions, decodes in
    full, and is neither a [.jpg] that is no JPEG nor a [.png] that is no
    PNG. *)
Definition image_sound {rt : PyBuiltins} (env : Env) (file_path : str)
  : Prop :=
  exists img,
    Image_open env file_path = Ret img
    /\ (0 < img_width img)%Z /\ (0 < img_height img)%Z
    /\ img_load img = Ret tt
    /\ ~ (file_ext_of file_path = u ".jpg"
          /\ img_format img <> Some (u "JPEG"))
    /\ ~ (file_ext_of file_path = u ".png"
          /\ img_format img <> Some (u "PNG")).

(** The probe step lets a video through: [ffprobe] is not installed, or it
    reports a duration that is not [<= 0].  (The conversion of its output
    cannot raise [FileNotFoundError]; were it to, the handler would let
    the video through as well.) *)
Definition probe_passes {rt : PyBuiltins} (env : Env) (file_path : str)
  : Prop :=
  (exists msg, ffprobe env file_path = Raise (FileNotFoundError msg))
  \/ (exists out,
        ffprobe env file_path = Ret out
        /\ ((exists duration, float_of_str (strip out) = Ret duration
                              /\ float_le0 duration = false)
            \/ exists msg, float_of_str (strip out)
                           = Raise (FileNotFoundError msg))).

(** The frame checks pass for a capture constructed in the state [w1]:
    the constructor returns, the capture is open, its four properties
    are read and valid, and each of the three sampled frames is
    delivered. *)
Definition capture_sound (env : Env) (file_path : str) (w1 : World)
  : Prop :=
  VideoCapture_new env file_path = Ret tt
  /\ VideoCapture_isOpened env file_path = Ret true
  /\ exists xfc fps xw xh frame_count width height,
      VideoCapture_get env file_path CAP_PROP_FRAME_COUNT = Ret xfc
      /\ int_of_float xfc = Ret frame_count
      /\ VideoCapture_get env file_path CAP_PROP_FPS = Ret fps
      /\ VideoCapture_get env file_path CAP_PROP_FRAME_WIDTH = Ret xw
      /\ int_of_float xw = Ret width
      /\ VideoCapture_get env file_path CAP_PROP_FRAME_HEIGHT = Ret xh
      /\ int_of_float xh = Ret height
      /\ (0 < frame_count)%Z /\ float_le0 fps = false
      /\ (0 < width)%Z /\ (0 < height)%Z
      /\ reads_through env
           {| cap_id := length w1; cap_path := file_path |}
           (sampling_start w1 file_path) (test_frames frame_count) 3.

(** A video that passes, checked in the state [w]: the probe lets it
    through and the frame checks that follow pass. *)
Definition video_sound {rt : PyBuiltins} (env : Env) (file_path : str)
  (w : World) : Prop :=
  probe_passes env file_path
  /\ capture_sound env file_path (w ++ [EvProbe file_path]).

(** The type [run_checks] gives a file: an image by its extension, a
    video otherwise. *)
Definition file_type_of {rt : PyBuiltins} (file_path : str) : str :=
  if str_in (file_ext_of file_path) SUPPORTED_IMAGES
  then u "IMAGE" else u "VIDEO".

(** [r] is a row for the file [f] of the directory [dir]. *)
Definition row_for {rt : PyBuiltins} (env : Env) (dir f : str)
  (r : result_row) : Prop :=
  row_path r = os_path_relpath env f dir
  /\ row_type r = file_type_of f
  /\ (row_status r = STATUS_OK \/ row_status r = STATUS_BAD).

(** How many of the rows failed. *)
Definition count_bad (rows : list result_row) : Z :=
  len (filter (fun r => str_eqb (row_status r) STATUS_BAD) rows).
(* ================================================================= *)
(** * Properties *)

Import Fixture.

(** ** Strings *)

Lemma str_eqb_eq (a b : str) : str_eqb a b = true <-> a = b.
Proof.
  revert b; induction a as [|x a IH]; intros [|y b]; simpl;
    try (split; [discriminate | congruence]); try tauto.
  rewrite andb_true_iff, N.eqb_eq, IH. split.
  - intros [-> ->]; reflexivity.
  - intros H; injection H; auto.
Qed.

Lemma str_eqb_refl (a : str) : str_eqb a a = true.
Proof. apply str_eqb_eq; reflexivity. Qed.

Lemma str_eqb_neq (a b : str) : str_eqb a b = false <-> a <> b.
Proof.
  destruct (str_eqb a b) eqn:E.
  - apply str_eqb_eq in E. split; [discriminate | intros H; contradiction].
  - split; [|reflexivity]. intros _ H. apply str_eqb_eq in H. congruence.
Qed.

Example u_ascii : u ".jpg" = [46; 106; 112; 103]%N.
Proof. reflexivity. Qed.

Example u_cjk : u "帧" = [24103]%N /\ u "✅" = [9989]%N.
Proof. split; reflexivity. Qed.

Example str_of_Z_examples :
  str_of_Z 0 = u "0" /\ str_of_Z 1280 = u "1280" /\ str_of_Z (-5) = u "-5".
Proof. repeat split; reflexivity. Qed.

Example slice_last_examples :
  slice_last 2 (u "abcde") = u "de" /\ slice_last 7 (u "abc") = u "abc".
Proof. split; reflexivity. Qed.

(** *** Newlines and lines *)

Lemma count_nl_app (a b : str) : count_nl (a ++ b) = count_nl a + count_nl b.
Proof. unfold count_nl. rewrite filter_app, length_app. reflexivity. Qed.

(** A text that is made of lines joined by newlines has one line per
    entry and one more for every newline inside an entry. *)
Lemma count_nl_join (ls : list str) :
  ls <> [] ->
  S (count_nl (join nl ls)) = length ls + list_sum (map count_nl ls).
Proof.
  induction ls as [|l ls IH]; [congruence|]. intros _.
  destruct ls as [|l' ls'].
  - cbn [join length map list_sum fold_right]. lia.
  - change (join nl (l :: l' :: ls')) with (l ++ nl ++ join nl (l' :: ls')).
    rewrite !count_nl_app.
    change (count_nl nl) with 1.
    assert (Hne : l' :: ls' <> []) by discriminate.
    specialize (IH Hne). cbn [length map list_sum fold_right] in IH |- *. lia.
Qed.

Lemma count_nl_plain (s : str) :
  Forall (fun c => c <> 10%N) s -> count_nl s = 0.
Proof.
  unfold count_nl. induction 1 as [|c s Hc _ IH]; [reflexivity|].
  cbn [filter]. destruct (N.eqb_spec 10 c) as [E|_]; [congruence | exact IH].
Qed.

Lemma utf8_decode_ascii (bs : list N) :
  Forall (fun b => (b < 128)%N) bs -> utf8_decode bs 0 0 = bs.
Proof.
  induction 1 as [|b bs Hb _ IH]; [reflexivity|].
  cbn [utf8_decode]. apply N.ltb_lt in Hb. rewrite Hb, IH. reflexivity.
Qed.

Lemma u_ascii_text (s : string) (P : N -> Prop) :
  Forall (fun b => (b < 128)%N /\ P b)
         (map N_of_ascii (list_ascii_of_string s)) ->
  Forall P (u s).
Proof.
  intros H. unfold u. rewrite utf8_decode_ascii.
  - eapply Forall_impl; [|exact H]. intros b Hb; exact (proj2 Hb).
  - eapply Forall_impl; [|exact H]. intros b Hb; exact (proj1 Hb).
Qed.

Lemma string_of_uint_digits (d : Decimal.uint) :
  Forall (fun b => (b < 128)%N /\ b <> 10%N)
         (map N_of_ascii
              (list_ascii_of_string
                 (DecimalString.NilEmpty.string_of_uint d))).
Proof.
  induction d; cbn [DecimalString.NilEmpty.string_of_uint
                    list_ascii_of_string map];
    constructor; try assumption; vm_compute; split; congruence.
Qed.

(** [str(n)] holds no newline. *)
Lemma count_nl_str_of_Z (n : Z) : count_nl (str_of_Z n) = 0.
Proof.
  apply count_nl_plain. unfold str_of_Z. apply u_ascii_text.
  assert (Hu : forall d,
             Forall (fun b => (b < 128)%N /\ b <> 10%N)
                    (map N_of_ascii
                         (list_ascii_of_string
                            (DecimalString.NilZero.string_of_uint d)))).
  { intros d. destruct d; try apply string_of_uint_digits.
    cbn. constructor; [|constructor]. vm_compute; split; congruence. }
  destruct (Z.to_int n) as [d|d]; cbn [DecimalString.NilZero.string_of_int].
  - apply Hu.
  - cbn [list_ascii_of_string map]. constructor; [|apply Hu].
    vm_compute; split; congruence.
Qed.

Example line_count_examples :
  line_count (u "one line") = 1
  /\ line_count (join nl [u "a"; u "b"; nl ++ u "c"]) = 4.
Proof. split; reflexivity. Qed.

(** ** The monad and the trace *)

Lemma appends_ret {A} (P : event -> Prop) (a : A) : appends P (ret a).
Proof. intros w; exists []; simpl; rewrite app_nil_r; auto. Qed.

Lemma appends_raise {A} (P : event -> Prop) (e : exn) :
  appends P (@raise A e).
Proof. intros w; exists []; simpl; rewrite app_nil_r; auto. Qed.

Lemma appends_lift {A} (P : event -> Prop) (r : res A) : appends P (lift r).
Proof. intros w; exists []; simpl; rewrite app_nil_r; auto. Qed.

Lemma appends_emit (P : event -> Prop) (ev : event) :
  P ev -> appends P (emit ev).
Proof. intros H w; exists [ev]; simpl; auto. Qed.

Lemma appends_bind {A B} (P : event -> Prop) (m : M A) (k : A -> M B) :
  appends P m -> (forall a, appends P (k a)) -> appends P (bind m k).
Proof.
  intros Hm Hk w. unfold bind.
  destruct (Hm w) as (evs1 & E1 & F1).
  destruct (m w) as [[a|e] w1]; simpl in E1; subst w1.
  - destruct (Hk a (w ++ evs1)) as (evs2 & E2 & F2).
    exists (evs1 ++ evs2). rewrite E2, app_assoc. split; auto.
    apply Forall_app; auto.
  - exists evs1; auto.
Qed.

Lemma appends_try_except {A} (P : event -> Prop) (m : M A) (h : exn -> M A) :
  appends P m -> (forall e, appends P (h e)) -> appends P (try_except m h).
Proof.
  intros Hm Hh w. unfold try_except.
  destruct (Hm w) as (evs1 & E1 & F1).
  destruct (m w) as [[a|e] w1]; simpl in E1; subst w1.
  - exists evs1; auto.
  - destruct (Hh e (w ++ evs1)) as (evs2 & E2 & F2).
    exists (evs1 ++ evs2). rewrite E2, app_assoc. split; auto.
    apply Forall_app; auto.
Qed.

Lemma appends_try_finally {A} (P : event -> Prop) (m : M A) (f : M unit) :
  appends P m -> appends P f -> appends P (try_finally m f).
Proof.
  intros Hm Hf w. unfold try_finally.
  destruct (Hm w) as (evs1 & E1 & F1).
  destruct (m w) as [r w1]; simpl in E1; subst w1.
  destruct (Hf (w ++ evs1)) as (evs2 & E2 & F2).
  exists (evs1 ++ evs2).
  destruct (f (w ++ evs1)) as [[[]|e] w2]; simpl in E2 |- *; subst w2;
    rewrite app_assoc; (split; [reflexivity | apply Forall_app; auto]).
Qed.

Lemma total_ret {A} (a : A) : total (ret a).
Proof. intros w; exists a, w; reflexivity. Qed.

Lemma total_emit (ev : event) : total (emit ev).
Proof. intros w; exists tt, (w ++ [ev]); reflexivity. Qed.

Lemma total_bind {A B} (m : M A) (k : A -> M B) :
  total m -> (forall a, total (k a)) -> total (bind m k).
Proof.
  intros Hm Hk w. unfold bind.
  destruct (Hm w) as (a & w1 & E). rewrite E. apply Hk.
Qed.

(** Handlers that never raise make the whole [try] statement total,
    whatever its body does. *)
Lemma total_try_except {A} (m : M A) (h : exn -> M A) :
  (forall e, total (h e)) -> total (try_except m h).
Proof.
  intros Hh w. unfold try_except.
  destruct (m w) as [[a|e] w1]; [exists a, w1; reflexivity | apply Hh].
Qed.

Lemma total_try_finally {A} (m : M A) (f : M unit) :
  total m -> total f -> total (try_finally m f).
Proof.
  intros Hm Hf w. unfold try_finally.
  destruct (Hm w) as (a & w1 & E). rewrite E.
  destruct (Hf w1) as ([] & w2 & E2). rewrite E2.
  exists a, w2; reflexivity.
Qed.

Create HintDb trace discriminated.
#[export] Hint Resolve appends_ret appends_raise appends_lift appends_emit
  appends_bind appends_try_except appends_try_finally : trace.
#[export] Hint Resolve total_ret total_emit total_bind total_try_except
  total_try_finally : trace.
#[export] Hint Extern 1 (neutral _) => exact I : trace.

(** The capture bookkeeping over a concatenated trace. *)
Lemma live_captures_app (w1 w2 : World) :
  live_captures (w1 ++ w2) = fold_left live_step w2 (live_captures w1).
Proof. unfold live_captures. apply fold_left_app. Qed.

Lemma fold_live_neutral (evs : list event) (l : list nat) :
  Forall neutral evs -> fold_left live_step evs l = l.
Proof.
  intros H; revert l; induction H as [|ev evs Hev _ IH]; intros l; simpl.
  - reflexivity.
  - rewrite IH. destruct ev; simpl in *; auto; contradiction.
Qed.

Lemma live_captures_neutral (evs : list event) :
  Forall neutral evs -> live_captures evs = [].
Proof. apply fold_live_neutral. Qed.

(** A handle that is handed out, used and released leaves nothing
    behind. *)
Lemma live_captures_bracket (id : nat) (f : str) (mid : list event) :
  Forall neutral mid ->
  live_captures (EvCapNew id f :: mid ++ [EvCapRelease id]) = [].
Proof.
  intros H. unfold live_captures. simpl.
  rewrite fold_left_app, (fold_live_neutral _ H). simpl.
  rewrite Nat.eqb_refl. reflexivity.
Qed.

Lemma balanced_of_neutral {A} (m : M A) : appends neutral m -> balanced m.
Proof.
  intros H w. destruct (H w) as (evs & E & F).
  exists evs. split; [exact E | apply live_captures_neutral, F].
Qed.

Lemma balanced_bind {A B} (m : M A) (k : A -> M B) :
  balanced m -> (forall a, balanced (k a)) -> balanced (bind m k).
Proof.
  intros Hm Hk w. unfold bind.
  destruct (Hm w) as (evs1 & E1 & L1).
  destruct (m w) as [[a|e] w1]; simpl in E1; subst w1.
  - destruct (Hk a (w ++ evs1)) as (evs2 & E2 & L2).
    exists (evs1 ++ evs2). rewrite E2, app_assoc. split; [reflexivity|].
    rewrite live_captures_app, L1. exact L2.
  - exists evs1; auto.
Qed.


(** ** [check_image_integrity] *)

Section ImageFacts.

Context {rt : PyBuiltins} (env : Env).

(** What the check answers for an image that opens, has positive
    dimensions and decodes in full: only the two comparisons of the source
    decide. *)
Lemma check_image_decoded (file_path : str) (img : pil_image) (w : World) :
  Image_open env file_path = Ret img ->
  (0 < img_width img)%Z -> (0 < img_height img)%Z ->
  img_load img = Ret tt ->
  check_image_integrity env file_path w =
    (Ret (let file_ext := file_ext_of file_path in
          if str_eqb file_ext (u ".jpg")
             && opt_str_neb (img_format img) (u "JPEG")
          then (false, format_mismatch file_ext (img_format img))
          else if str_eqb file_ext (u ".png")
                  && opt_str_neb (img_format img) (u "PNG")
          then (false, format_mismatch file_ext (img_format img))
          else (true, u "图片正常")),
     w ++ [EvImageOpen file_path; EvImageLoad file_path;
           EvImageClose file_path]).
Proof.
  intros Hopen Hw Hh Hload.
  unfold check_image_integrity, try_except, with_Image_open, PIL_Image_open,
    try_finally, check_image_body, PIL_load, bind, emit, lift, ret.
  rewrite Hopen.
  replace (img_width img <=? 0)%Z with false by (symmetry; apply Z.leb_gt; lia).
  replace (img_height img <=? 0)%Z with false by (symmetry; apply Z.leb_gt; lia).
  cbv beta iota. rewrite Hload. cbv zeta.
  cbn [orb].
  destruct (str_eqb (file_ext_of file_path) (u ".jpg")
            && opt_str_neb (img_format img) (u "JPEG"));
    [repeat rewrite <- app_assoc; reflexivity|].
  destruct (str_eqb (file_ext_of file_path) (u ".png")
            && opt_str_neb (img_format img) (u "PNG"));
    repeat rewrite <- app_assoc; reflexivity.
Qed.

(** With any extension other than [.jpg] and [.png] the detected format
    is never looked at. *)
Lemma check_image_unchecked_extension (file_path : str) (img : pil_image)
  (w : World) :
  file_ext_of file_path <> u ".jpg" ->
  file_ext_of file_path <> u ".png" ->
  Image_open env file_path = Ret img ->
  (0 < img_width img)%Z -> (0 < img_height img)%Z ->
  img_load img = Ret tt ->
  fst (check_image_integrity env file_path w) = Ret (true, u "图片正常").
Proof.
  intros Hjpg Hpng Hopen Hw Hh Hload.
  rewrite (check_image_decoded _ w Hopen Hw Hh Hload). cbv zeta.
  apply str_eqb_neq in Hjpg, Hpng. rewrite Hjpg, Hpng. reflexivity.
Qed.

(** The cross-check where the source has one: a [.jpg] that is not a JPEG,
    a [.png] that is not a PNG. *)
Lemma check_image_mismatch (file_path : str) (img : pil_image) (w : World) :
  (file_ext_of file_path = u ".jpg" /\ img_format img <> Some (u "JPEG"))
  \/ (file_ext_of file_path = u ".png" /\ img_format img <> Some (u "PNG")) ->
  Image_open env file_path = Ret img ->
  (0 < img_width img)%Z -> (0 < img_height img)%Z ->
  img_load img = Ret tt ->
  fst (check_image_integrity env file_path w) =
    Ret (false, format_mismatch (file_ext_of file_path) (img_format img)).
Proof.
  intros Hmis Hopen Hw Hh Hload.
  rewrite (check_image_decoded _ w Hopen Hw Hh Hload). cbv zeta.
  assert (Hne : forall a b, a <> Some b -> opt_str_neb a b = true).
  { intros [s|] b Hab; simpl; [|reflexivity].
    apply negb_true_iff, str_eqb_neq. congruence. }
  destruct Hmis as [[He Hf]|[He Hf]]; rewrite He, (Hne _ _ Hf).
  - reflexivity.
  - reflexivity.
Qed.

Lemma image_handlers_failure (e : exn) (w : World) :
  image_handlers e w = (Ret (false, image_failure e), w).
Proof.
  destruct e; unfold image_handlers, image_failure, ret; reflexivity.
Qed.

Lemma opt_str_neb_spec (a : option str) (b : str) :
  opt_str_neb a b = true <-> a <> Some b.
Proof.
  destruct a as [s|]; cbn.
  - rewrite negb_true_iff, str_eqb_neq. split; congruence.
  - split; [discriminate | reflexivity].
Qed.

Lemma mismatch_spec (file_ext want : str) (fmt : option str) (have : str) :
  str_eqb file_ext want && opt_str_neb fmt have = true
  <-> file_ext = want /\ fmt <> Some have.
Proof. rewrite andb_true_iff, str_eqb_eq, opt_str_neb_spec. tauto. Qed.

(** The check always answers, and it answers ok=true for exactly the
    images that pass every step. *)
Lemma check_image_sound (file_path : str) (w : World) :
  exists ok msg w',
    check_image_integrity env file_path w = (Ret (ok, msg), w')
    /\ (ok = true <-> image_sound env file_path).
Proof.
  unfold image_sound.
  destruct (Image_open env file_path) as [img|e] eqn:Hopen.
  2:{ eexists false, _, _. split.
      - unfold check_image_integrity, try_except, with_Image_open,
          PIL_Image_open, bind, emit, lift.
        rewrite Hopen. apply image_handlers_failure.
      - split; [discriminate|]. intros (img & H & _). discriminate H. }
  destruct ((img_width img <=? 0)%Z || (img_height img <=? 0)%Z) eqn:Edim.
  { eexists false, _, _. split.
    - unfold check_image_integrity, try_except, with_Image_open,
        PIL_Image_open, try_finally, check_image_body, bind, emit, lift, ret.
      rewrite Hopen. cbv beta iota. rewrite Edim. reflexivity.
    - split; [discriminate|].
      intros (img' & H & Pw & Ph & _). injection H as <-.
      apply orb_true_iff in Edim. rewrite !Z.leb_le in Edim. lia. }
  apply orb_false_iff in Edim. destruct Edim as (Ew & Eh).
  pose proof (proj1 (Z.leb_gt _ _) Ew) as Pw.
  pose proof (proj1 (Z.leb_gt _ _) Eh) as Ph.
  destruct (img_load img) as [[]|e] eqn:Hload.
  - pose proof (check_image_decoded _ w Hopen Pw Ph Hload) as E.
    cbv zeta in E.
    destruct (str_eqb (file_ext_of file_path) (u ".jpg")
              && opt_str_neb (img_format img) (u "JPEG")) eqn:Ejpg.
    { eexists false, _, _. split; [exact E|].
      split; [discriminate|].
      intros (img' & H & _ & _ & _ & Hj & _). injection H as <-.
      destruct Hj. apply mismatch_spec, Ejpg. }
    destruct (str_eqb (file_ext_of file_path) (u ".png")
              && opt_str_neb (img_format img) (u "PNG")) eqn:Epng.
    { eexists false, _, _. split; [exact E|].
      split; [discriminate|].
      intros (img' & H & _ & _ & _ & _ & Hp). injection H as <-.
      destruct Hp. apply mismatch_spec, Epng. }
    eexists true, _, _. split; [exact E|].
    split; [intros _|reflexivity].
    exists img. repeat split; try assumption.
    + intros H. apply mismatch_spec in H. congruence.
    + intros H. apply mismatch_spec in H. congruence.
  - eexists false, _, _. split.
    + unfold check_image_integrity, try_except, with_Image_open,
        PIL_Image_open, try_finally, check_image_body, PIL_load,
        bind, emit, lift, ret.
      rewrite Hopen. cbv beta iota. rewrite Ew, Eh. cbn [orb].
      cbv beta iota zeta. rewrite Hload. cbv beta iota zeta.
      apply image_handlers_failure.
    + split; [discriminate|].
      intros (img' & H & _ & _ & Hl & _). injection H as <-. congruence.
Qed.

(** C10: for an image whose lowercased extension is [.gif] or [.bmp],
    [check_image_integrity] compares the extension with no detected format:
    once the file opens, has positive width and height and decodes in full,
    the answer is ok=true with the message of a normal image, whatever
    format Pillow detected. *)
Theorem gif_bmp_no_format_check (file_path : str) (img : pil_image)
  (w : World) :
  file_ext_of file_path = u ".gif" \/ file_ext_of file_path = u ".bmp" ->
  Image_open env file_path = Ret img ->
  (0 < img_width img)%Z -> (0 < img_height img)%Z ->
  img_load img = Ret tt ->
  fst (check_image_integrity env file_path w) = Ret (true, u "图片正常").
Proof.
  intros Hext. apply check_image_unchecked_extension;
    destruct Hext as [-> | ->]; discriminate.
Qed.

End ImageFacts.

(** A [.gif] that holds PNG data passes. *)
Lemma gif_bmp_no_format_check_witness :
  fst (check_image_integrity sample_env (u "/media/anim.gif") []) =
    Ret (true, u "图片正常").
Proof.
  apply (@gif_bmp_no_format_check builtins sample_env (u "/media/anim.gif")
           {| img_width := 10; img_height := 10;
              img_format := Some (u "PNG"); img_load := Ret tt |} []).
  - left; reflexivity.
  - reflexivity.
  - reflexivity.
  - reflexivity.
  - reflexivity.
Defined.

(** C1, where the source falls short of it: [photo.jpeg] holding PNG
    data decodes with positive dimensions, its lowercased extension is
    [.jpeg] and the detected format is not JPEG, yet the check answers
    ok=true; the same bytes named [photo.jpg] are reported as a format
    mismatch.  The comparison of the source names [.jpg] only. *)
Theorem jpeg_extension_skips_format_check :
  file_ext_of (u "/media/photo.jpeg") = u ".jpeg"
  /\ fst (check_image_integrity sample_env (u "/media/photo.jpeg") []) =
       Ret (true, u "图片正常")
  /\ fst (check_image_integrity sample_env (u "/media/photo.jpg") []) =
       Ret (false, format_mismatch (u ".jpg") (Some (u "PNG"))).
Proof. repeat split; vm_compute; reflexivity. Qed.

(** ** [check_video_integrity] *)

Section VideoFacts.

Context {rt : PyBuiltins} (env : Env).

Lemma bind_Ret {A B} (m : M A) (k : A -> M B) (w w' : World) (a : A) :
  m w = (Ret a, w') -> bind m k w = k a w'.
Proof. intros H; unfold bind; rewrite H; reflexivity. Qed.

Lemma bind_Raise {A B} (m : M A) (k : A -> M B) (w w' : World) (e : exn) :
  m w = (Raise e, w') -> bind m k w = (Raise e, w').
Proof. intros H; unfold bind; rewrite H; reflexivity. Qed.

(** *** The probe *)

Lemma probe_duration_total (file_path : str) :
  total (probe_duration env file_path).
Proof.
  apply total_try_except. intros [m|m|m|m]; apply total_ret.
Qed.

Lemma probe_duration_appends (file_path : str) :
  appends neutral (probe_duration env file_path).
Proof.
  unfold probe_duration. apply appends_try_except.
  - repeat (apply appends_bind; [auto with trace|intros ?]).
    destruct (float_le0 _); auto with trace.
  - intros [m|m|m|m]; auto with trace.
Qed.

Lemma probe_absent (file_path msg : str) (w : World) :
  ffprobe env file_path = Raise (FileNotFoundError msg) ->
  probe_duration env file_path w =
    (Ret (Normal float_zero), w ++ [EvProbe file_path]).
Proof.
  intros H. unfold probe_duration, try_except, bind, emit, lift, ret.
  rewrite H. reflexivity.
Qed.

Lemma probe_reports (file_path out : str) (duration : float) (w : World) :
  ffprobe env file_path = Ret out ->
  float_of_str (strip out) = Ret duration ->
  probe_duration env file_path w =
    (Ret (if float_le0 duration
          then Returned (false, u "无效视频时长: " ++ float_str duration
                                  ++ u "秒")
          else Normal duration),
     w ++ [EvProbe file_path]).
Proof.
  intros H1 H2. unfold probe_duration, try_except, bind, emit, lift, ret.
  rewrite H1, H2. destruct (float_le0 duration); reflexivity.
Qed.

Lemma probe_raises (file_path : str) (e : exn) (w : World) :
  ffprobe env file_path = Raise e
  \/ (exists out, ffprobe env file_path = Ret out
                  /\ float_of_str (strip out) = Raise e) ->
  is_FileNotFoundError e = false ->
  probe_duration env file_path w =
    (Ret (Returned (false, u "ffprobe检测失败: " ++ slice_to 80 (exn_str e))),
     w ++ [EvProbe file_path]).
Proof.
  intros H He. unfold probe_duration, try_except, bind, emit, lift, ret.
  destruct H as [H|(out & H1 & H2)].
  - rewrite H. destruct e; try discriminate; reflexivity.
  - rewrite H1, H2. destruct e; try discriminate; reflexivity.
Qed.

(** *** The capture *)

Lemma appends_cap_set_pos (P : event -> Prop) (cap : capture) (idx : Z) :
  P (EvCapSeek (cap_id cap) idx) -> appends P (cap_set_pos env cap idx).
Proof. intros H w; exists [EvCapSeek (cap_id cap) idx]; simpl; auto. Qed.

Lemma appends_cap_read (P : event -> Prop) (cap : capture) :
  P (EvCapRead (cap_id cap)) -> appends P (cap_read env cap).
Proof. intros H w; exists [EvCapRead (cap_id cap)]; simpl; auto. Qed.

Lemma appends_read_frames (cap : capture) (idxs : list Z) :
  appends neutral (read_frames env cap idxs).
Proof.
  induction idxs as [|i idxs IH]; simpl; [auto with trace|].
  apply appends_bind; [apply appends_cap_set_pos; exact I|]. intros _.
  apply appends_bind; [apply appends_cap_read; exact I|].
  intros [[|] [f|]]; auto with trace.
Qed.

Lemma appends_cap_get (cap : capture) (prop : cap_prop) :
  appends neutral (cap_get env cap prop).
Proof. unfold cap_get; auto with trace. Qed.

Lemma appends_check_video_body (duration : float) (cap : capture) :
  appends neutral (check_video_body env duration cap).
Proof.
  unfold check_video_body.
  apply appends_bind; [unfold cap_isOpened; auto with trace|].
  intros [|]; cbn [negb]; [|auto with trace].
  repeat (apply appends_bind;
          [auto using appends_cap_get, appends_bind with trace|intros ?]).
  repeat match goal with
         | |- appends _ (if ?b then _ else _) => destruct b
         end; auto with trace.
  apply appends_bind; [apply appends_read_frames|].
  intros [v|[]]; auto with trace.
Qed.

Lemma video_handlers_total (e : exn) : total (video_handlers e).
Proof. destruct e; apply total_ret. Qed.

Lemma video_handlers_quiet (e : exn) (w : World) :
  exists msg, video_handlers e w = (Ret (false, msg), w).
Proof. destruct e; eexists; reflexivity. Qed.

(** The trace of the second [try]: either the constructor raised and
    nothing was acquired, or the handle acquired first is released last,
    with no other acquisition or release in between. *)
Lemma check_video_frames_trace (duration : float) (file_path : str)
  (w : World) :
  exists r,
    check_video_frames env duration file_path w =
      (r, w ++ [EvCapNewFailed file_path])
    \/ exists mid,
         check_video_frames env duration file_path w =
           (r, w ++ EvCapNew (length w) file_path
                 :: mid ++ [EvCapRelease (length w)])
         /\ Forall neutral mid.
Proof.
  unfold check_video_frames, try_capture, cv2_VideoCapture.
  destruct (VideoCapture_new env file_path) as [[]|e].
  - set (cap := {| cap_id := length w; cap_path := file_path |}).
    set (w1 := w ++ [EvCapNew (length w) file_path]).
    assert (Hm : appends neutral
                   (try_except (check_video_body env duration cap)
                      video_handlers)).
    { apply appends_try_except; [apply appends_check_video_body|].
      intros e; destruct e; unfold video_handlers; auto with trace. }
    destruct (Hm w1) as (mid & E & F).
    unfold try_finally, cap_release, emit.
    destruct (try_except _ _ w1) as [r w2]; simpl in E; subst w2.
    exists r; right; exists mid. split; [|exact F].
    unfold w1; simpl. repeat rewrite <- app_assoc. reflexivity.
  - destruct (video_handlers_quiet e (w ++ [EvCapNewFailed file_path]))
      as (msg & E).
    exists (Ret (false, msg)); left.
    unfold try_finally, ret. rewrite E. reflexivity.
Qed.

Lemma check_video_frames_total (duration : float) (file_path : str) :
  total (check_video_frames env duration file_path).
Proof.
  intros w. unfold check_video_frames, try_capture.
  destruct (cv2_VideoCapture env file_path w) as [[cap|e] w1].
  - apply total_try_finally.
    + apply total_try_except, video_handlers_total.
    + apply total_emit.
  - apply total_try_finally; [apply video_handlers_total | apply total_ret].
Qed.

Lemma check_video_integrity_total (file_path : str) :
  total (check_video_integrity env file_path).
Proof.
  apply total_bind; [apply probe_duration_total|].
  intros [v|duration]; [apply total_ret | apply check_video_frames_total].
Qed.

Lemma neutral_not_acquired (evs : list event) (id : nat) (f : str)
  (H : Forall neutral evs) (Hin : In (EvCapNew id f) evs) : False.
Proof. rewrite Forall_forall in H. exact (H _ Hin). Qed.

(** C2: the three outcomes of the duration probe.  When [ffprobe] is not
    installed ([subprocess.run] raises [FileNotFoundError]) the step is
    skipped without a message: the check goes on to the frame checks with
    duration 0.0.  When the tool answers a duration <= 0 the check returns
    ok=false with the invalid-duration message, and the probe is the only
    call it made: no capture is opened.  When the probe raises anything
    else (the tool fails, or its output is not a number) the check returns
    ok=false with the error text cut to 80 characters, again with no
    capture opened. *)
Theorem probe_policy (file_path : str) (w : World) :
  (forall msg,
      ffprobe env file_path = Raise (FileNotFoundError msg) ->
      check_video_integrity env file_path w =
        check_video_frames env float_zero file_path
          (w ++ [EvProbe file_path]))
  /\ (forall out duration,
         ffprobe env file_path = Ret out ->
         float_of_str (strip out) = Ret duration ->
         float_le0 duration = true ->
         check_video_integrity env file_path w =
           (Ret (false, u "无效视频时长: " ++ float_str duration ++ u "秒"),
            w ++ [EvProbe file_path]))
  /\ (forall e,
         ffprobe env file_path = Raise e
         \/ (exists out, ffprobe env file_path = Ret out
                         /\ float_of_str (strip out) = Raise e) ->
         is_FileNotFoundError e = false ->
         check_video_integrity env file_path w =
           (Ret (false, u "ffprobe检测失败: " ++ slice_to 80 (exn_str e)),
            w ++ [EvProbe file_path])
         /\ (length (slice_to 80 (exn_str e)) <= 80)%nat).
Proof.
  repeat split.
  - intros msg H. unfold check_video_integrity.
    rewrite (bind_Ret _ _ _ (probe_absent _ w H)). reflexivity.
  - intros out duration H1 H2 H3. unfold check_video_integrity.
    rewrite (bind_Ret _ _ _ (probe_reports _ w H1 H2)), H3. reflexivity.
  - unfold check_video_integrity.
    rewrite (bind_Ret _ _ _ (probe_raises _ w H H0)). reflexivity.
  - apply firstn_le_length.
Qed.

(** The trace of a whole call: balanced, and a handle that was acquired
    is released last. *)
Lemma check_video_integrity_trace (file_path : str) (w : World) :
  exists r evs,
    check_video_integrity env file_path w = (r, w ++ evs)
    /\ live_captures evs = []
    /\ (forall id f, In (EvCapNew id f) evs ->
                     exists before, evs = before ++ [EvCapRelease id]).
Proof.
  unfold check_video_integrity, bind.
  destruct (probe_duration_appends file_path w) as (pevs & E & F).
  destruct (probe_duration env file_path w) as [[[v|duration]|e] w1];
    simpl in E; subst w1.
  - exists (Ret v), pevs. repeat split.
    + apply live_captures_neutral, F.
    + intros id f Hin. destruct (neutral_not_acquired _ _ F Hin).
  - destruct (check_video_frames_trace duration file_path (w ++ pevs))
      as (r & [E1 | (mid & E1 & Fm)]); rewrite E1.
    + exists r, (pevs ++ [EvCapNewFailed file_path]).
      assert (Fall : Forall neutral (pevs ++ [EvCapNewFailed file_path])).
      { apply Forall_app; split; [exact F | repeat constructor]. }
      rewrite app_assoc. repeat split.
      * apply live_captures_neutral, Fall.
      * intros id f Hin. destruct (neutral_not_acquired _ _ Fall Hin).
    + set (n := length (w ++ pevs)).
      exists r, (pevs ++ EvCapNew n file_path :: mid ++ [EvCapRelease n]).
      rewrite app_assoc. repeat split.
      * rewrite live_captures_app, (live_captures_neutral F).
        apply (live_captures_bracket n file_path Fm).
      * intros id f Hin. apply in_app_or in Hin.
        destruct Hin as [Hin | [Heq | Hin]].
        -- destruct (neutral_not_acquired _ _ F Hin).
        -- injection Heq as <- _.
           exists (pevs ++ EvCapNew n file_path :: mid).
           rewrite <- app_assoc. reflexivity.
        -- apply in_app_or in Hin. destruct Hin as [Hin | [Heq | []]].
           ++ destruct (neutral_not_acquired _ _ Fm Hin).
           ++ discriminate Heq.
  - exists (Raise e), pevs. repeat split.
    + apply live_captures_neutral, F.
    + intros id f Hin. destruct (neutral_not_acquired _ _ F Hin).
Qed.

Lemma check_video_integrity_balanced (file_path : str) :
  balanced (check_video_integrity env file_path).
Proof.
  intros w. destruct (check_video_integrity_trace file_path w)
    as (r & evs & E & L & _).
  exists evs. rewrite E. split; [reflexivity | exact L].
Qed.

(** C4: whatever the environment answers, a call of
    [check_video_integrity] leaves no capture behind.  The events it
    appends to the trace contain as many releases as acquisitions, and if
    a handle was acquired at all, its release is the last thing the call
    does, whether the body returned ok, returned a failure early, or
    raised into one of the handlers. *)
Theorem capture_released_on_every_exit (file_path : str) (w : World) :
  exists r evs,
    check_video_integrity env file_path w = (r, w ++ evs)
    /\ live_captures evs = []
    /\ (forall id f, In (EvCapNew id f) evs ->
                     exists before, evs = before ++ [EvCapRelease id]).
Proof. exact (check_video_integrity_trace file_path w). Qed.

(** *** The sampled frames *)

Lemma sampling_trace_seeks (id : nat) (idxs : list Z) :
  seeks (sampling_trace id idxs) = idxs.
Proof.
  unfold seeks. induction idxs as [|i idxs IH]; cbn; [|rewrite IH];
    reflexivity.
Qed.

(** One round of the loop, by what the seek and the read come to. *)
Lemma read_frames_delivered (cap : capture) (i : Z) (rest : list Z)
  (w : World) :
  sample env cap w i = FrameRead ->
  read_frames env cap (i :: rest) w =
    read_frames env cap rest
      (w ++ [EvCapSeek (cap_id cap) i; EvCapRead (cap_id cap)]).
Proof.
  unfold sample. cbn [read_frames]. unfold bind, cap_set_pos, cap_read.
  destruct (VideoCapture_set env w cap i) as [b|e]; [|discriminate].
  destruct (VideoCapture_read env _ cap) as [[[|] [f|]]|e];
    try discriminate.
  intros _. rewrite <- app_assoc. reflexivity.
Qed.

Lemma read_frames_no_frame (cap : capture) (i : Z) (rest : list Z)
  (w : World) :
  sample env cap w i = NoFrame ->
  read_frames env cap (i :: rest) w =
    (Ret (Returned (false, frame_failed i)),
     w ++ [EvCapSeek (cap_id cap) i; EvCapRead (cap_id cap)]).
Proof.
  unfold sample. cbn [read_frames]. unfold bind, cap_set_pos, cap_read, ret.
  destruct (VideoCapture_set env w cap i) as [b|e]; [|discriminate].
  destruct (VideoCapture_read env _ cap) as [[[|] [f|]]|e];
    try discriminate; intros _; rewrite <- app_assoc; reflexivity.
Qed.

Lemma read_frames_raised (cap : capture) (i : Z) (rest : list Z)
  (w : World) (e : exn) :
  sample env cap w i = SampleRaised e ->
  exists evs,
    read_frames env cap (i :: rest) w = (Raise e, w ++ evs)
    /\ seeks evs = [i] /\ Forall neutral evs.
Proof.
  unfold sample. cbn [read_frames]. unfold bind, cap_set_pos, cap_read.
  destruct (VideoCapture_set env w cap i) as [b|e0].
  - destruct (VideoCapture_read env _ cap) as [[[|] [f|]]|e0];
      try discriminate.
    intros H; injection H as <-.
    exists [EvCapSeek (cap_id cap) i; EvCapRead (cap_id cap)].
    rewrite <- app_assoc. repeat split; repeat constructor.
  - intros H; injection H as <-.
    exists [EvCapSeek (cap_id cap) i]. repeat split; repeat constructor.
Qed.

(** As long as frames are delivered the loop goes on to the next index,
    in the state the seeks and reads so far have left. *)
Lemma read_frames_through (cap : capture) (k : nat) (idxs : list Z)
  (w : World) :
  k <= length idxs ->
  reads_through env cap w idxs k ->
  read_frames env cap idxs w =
    read_frames env cap (skipn k idxs)
      (w ++ sampling_trace (cap_id cap) (firstn k idxs)).
Proof.
  revert idxs w; induction k as [|k IH]; intros idxs w Hk Hread.
  - cbn. rewrite app_nil_r. reflexivity.
  - destruct idxs as [|i rest]; [cbn in Hk; lia|].
    pose proof (Hread 0 (Nat.lt_0_succ k)) as H0.
    cbn in H0. rewrite app_nil_r in H0.
    rewrite (@read_frames_delivered _ _ rest _ H0).
    cbn [skipn firstn sampling_trace].
    rewrite IH.
    + rewrite <- app_assoc. reflexivity.
    + cbn in Hk; lia.
    + intros j Hj. specialize (Hread (S j) (proj1 (Nat.succ_lt_mono j k) Hj)).
      cbn in Hread. rewrite <- app_assoc. exact Hread.
Qed.

(** The loop falls through only when every index delivered a frame. *)
Lemma read_frames_fell_through (cap : capture) (idxs : list Z)
  (w w' : World) :
  read_frames env cap idxs w = (Ret (Normal tt), w') ->
  reads_through env cap w idxs (length idxs).
Proof.
  revert w; induction idxs as [|i rest IH]; intros w H j Hj.
  - cbn in Hj; lia.
  - destruct (sample env cap w i) eqn:E.
    + rewrite (@read_frames_delivered _ _ rest _ E) in H.
      destruct j as [|j]; cbn.
      * rewrite app_nil_r. exact E.
      * specialize (IH _ H j (proj2 (Nat.succ_lt_mono j _) Hj)).
        rewrite <- app_assoc in IH. exact IH.
    + rewrite (@read_frames_no_frame _ _ rest _ E) in H. discriminate H.
    + destruct (@read_frames_raised _ _ rest _ _ E) as (evs & E' & _).
      rewrite E' in H. discriminate H.
Qed.

Lemma cap_isOpened_run (cap : capture) (w : World) :
  cap_isOpened env cap w =
    (VideoCapture_isOpened env (cap_path cap),
     w ++ [EvCapIsOpened (cap_id cap)]).
Proof. reflexivity. Qed.

Lemma cap_get_int_run (cap : capture) (prop : cap_prop) (x : float) (n : Z)
  (w : World) :
  VideoCapture_get env (cap_path cap) prop = Ret x ->
  int_of_float x = Ret n ->
  (y <- cap_get env cap prop ;; lift (int_of_float y)) w =
    (Ret n, w ++ [EvCapGet (cap_id cap) prop]).
Proof.
  intros Hx Hn. unfold cap_get, bind, emit, lift. rewrite Hx, Hn.
  reflexivity.
Qed.

Lemma cap_get_run (cap : capture) (prop : cap_prop) (x : float) (w : World) :
  VideoCapture_get env (cap_path cap) prop = Ret x ->
  cap_get env cap prop w = (Ret x, w ++ [EvCapGet (cap_id cap) prop]).
Proof. intros Hx. unfold cap_get, bind, emit, lift. rewrite Hx. reflexivity. Qed.

Lemma video_handlers_failure (e : exn) (w : World) :
  video_handlers e w = (Ret (false, video_failure e), w).
Proof.
  destruct e; unfold video_handlers, video_failure, ret; reflexivity.
Qed.

(** The second [try] once the constructor has returned a handle: the
    answer of the body, or of the handler of what it raised, and then the
    release. *)
Lemma check_video_frames_acquired (duration : float) (file_path : str)
  (w1 w3 : World) (r : res (bool * str)) :
  VideoCapture_new env file_path = Ret tt ->
  check_video_body env duration
    {| cap_id := length w1; cap_path := file_path |}
    (w1 ++ [EvCapNew (length w1) file_path]) = (r, w3) ->
  check_video_frames env duration file_path w1 =
    (Ret (match r with
          | Ret v => v
          | Raise e => (false, video_failure e)
          end),
     w3 ++ [EvCapRelease (length w1)]).
Proof.
  intros Hnew Hbody.
  unfold check_video_frames, try_capture, cv2_VideoCapture. rewrite Hnew.
  unfold try_finally, try_except, cap_release, emit. cbn [cap_id].
  rewrite Hbody. destruct r as [v|e].
  - reflexivity.
  - rewrite video_handlers_failure. reflexivity.
Qed.

(** The body of the second [try] up to the loop, for a capture that is
    open and whose four properties are valid. *)
Lemma check_video_body_sampling (duration : float) (file_path : str)
  (w1 : World) (fps xfc xw xh : float) (frame_count width height : Z) :
  VideoCapture_isOpened env file_path = Ret true ->
  VideoCapture_get env file_path CAP_PROP_FRAME_COUNT = Ret xfc ->
  int_of_float xfc = Ret frame_count ->
  VideoCapture_get env file_path CAP_PROP_FPS = Ret fps ->
  VideoCapture_get env file_path CAP_PROP_FRAME_WIDTH = Ret xw ->
  int_of_float xw = Ret width ->
  VideoCapture_get env file_path CAP_PROP_FRAME_HEIGHT = Ret xh ->
  int_of_float xh = Ret height ->
  (0 < frame_count)%Z -> float_le0 fps = false ->
  (0 < width)%Z -> (0 < height)%Z ->
  let cap := {| cap_id := length w1; cap_path := file_path |} in
  check_video_body env duration cap (w1 ++ [EvCapNew (length w1) file_path])
  = (r <- read_frames env cap (test_frames frame_count) ;;
     match r with
     | Returned v => ret v
     | Normal _ => ret (true, video_ok duration width height frame_count)
     end) (sampling_start w1 file_path).
Proof.
  intros Hopened Hfc Hfci Hfps Hw Hwi Hh Hhi Pfc Pfps Pw Ph cap.
  unfold check_video_body.
  rewrite (bind_Ret _ _ _ (eq_trans (cap_isOpened_run cap _)
                             (f_equal (fun x => (x, _)) Hopened))).
  cbn [negb].
  rewrite (bind_Ret _ _ _ (cap_get_int_run cap _ _ Hfc Hfci)).
  rewrite (bind_Ret _ _ _ (cap_get_run cap _ _ Hfps)).
  rewrite (bind_Ret _ _ _ (cap_get_int_run cap _ _ Hw Hwi)).
  rewrite (bind_Ret _ _ _ (cap_get_int_run cap _ _ Hh Hhi)).
  replace (frame_count <=? 0)%Z with false
    by (symmetry; apply Z.leb_gt; lia).
  replace (width <=? 0)%Z with false by (symmetry; apply Z.leb_gt; lia).
  replace (height <=? 0)%Z with false by (symmetry; apply Z.leb_gt; lia).
  rewrite Pfps. cbn [orb].
  unfold sampling_start. cbn [cap_id cap].
  repeat rewrite <- app_assoc. reflexivity.
Qed.

(** The whole check for such a video, by the outcome of the loop. *)
Lemma check_video_sampling (file_path : str) (w w1 w4 : World)
  (duration fps xfc xw xh : float) (frame_count width height : Z)
  (r : res (flow (bool * str) unit)) :
  probe_duration env file_path w = (Ret (Normal duration), w1) ->
  VideoCapture_new env file_path = Ret tt ->
  VideoCapture_isOpened env file_path = Ret true ->
  VideoCapture_get env file_path CAP_PROP_FRAME_COUNT = Ret xfc ->
  int_of_float xfc = Ret frame_count ->
  VideoCapture_get env file_path CAP_PROP_FPS = Ret fps ->
  VideoCapture_get env file_path CAP_PROP_FRAME_WIDTH = Ret xw ->
  int_of_float xw = Ret width ->
  VideoCapture_get env file_path CAP_PROP_FRAME_HEIGHT = Ret xh ->
  int_of_float xh = Ret height ->
  (0 < frame_count)%Z -> float_le0 fps = false ->
  (0 < width)%Z -> (0 < height)%Z ->
  read_frames env {| cap_id := length w1; cap_path := file_path |}
    (test_frames frame_count) (sampling_start w1 file_path) = (r, w4) ->
  check_video_integrity env file_path w =
    (Ret (match r with
          | Ret (Returned v) => v
          | Ret (Normal _) =>
              (true, video_ok duration width height frame_count)
          | Raise e => (false, video_failure e)
          end),
     w4 ++ [EvCapRelease (length w1)]).
Proof.
  intros Hprobe Hnew Hopened Hfc Hfci Hfps Hw Hwi Hh Hhi
         Pfc Pfps Pw Ph Hloop.
  unfold check_video_integrity. rewrite (bind_Ret _ _ _ Hprobe).
  pose proof (@check_video_body_sampling duration file_path w1 _ _ _ _ _ _ _
                Hopened Hfc Hfci Hfps Hw Hwi Hh Hhi Pfc Pfps Pw Ph)
    as Hbody.
  cbv zeta in Hbody.
  assert (Hbody' :
    check_video_body env duration
      {| cap_id := length w1; cap_path := file_path |}
      (w1 ++ [EvCapNew (length w1) file_path]) =
      (match r with
       | Ret (Returned v) => Ret v
       | Ret (Normal _) =>
           Ret (true, video_ok duration width height frame_count)
       | Raise e => Raise e
       end, w4)).
  { rewrite Hbody. unfold bind. rewrite Hloop.
    destruct r as [[v|[]]|e]; reflexivity. }
  rewrite (@check_video_frames_acquired duration file_path w1 _ _
             Hnew Hbody').
  destruct r as [[v|[]]|e]; reflexivity.
Qed.

(** *** The videos that pass *)

Lemma bind_inv {A B} (m : M A) (k : A -> M B) (w w' : World) (b : B) :
  bind m k w = (Ret b, w') ->
  exists a w1, m w = (Ret a, w1) /\ k a w1 = (Ret b, w').
Proof.
  unfold bind. destruct (m w) as [[a|e] w1]; [|discriminate].
  intros H. exists a, w1. split; [reflexivity | exact H].
Qed.

Lemma cap_get_inv (cap : capture) (prop : cap_prop) (x : float)
  (w w' : World) :
  cap_get env cap prop w = (Ret x, w') ->
  VideoCapture_get env (cap_path cap) prop = Ret x
  /\ w' = w ++ [EvCapGet (cap_id cap) prop].
Proof.
  unfold cap_get, bind, emit, lift. intros H; injection H as H1 H2.
  split; [exact H1 | symmetry; exact H2].
Qed.

Lemma cap_get_int_inv (cap : capture) (prop : cap_prop) (n : Z)
  (w w' : World) :
  (y <- cap_get env cap prop ;; lift (int_of_float y)) w = (Ret n, w') ->
  exists x, VideoCapture_get env (cap_path cap) prop = Ret x
            /\ int_of_float x = Ret n
            /\ w' = w ++ [EvCapGet (cap_id cap) prop].
Proof.
  intros H. apply bind_inv in H. destruct H as (x & w1 & H1 & H2).
  apply cap_get_inv in H1. destruct H1 as (H1 & ->).
  unfold lift in H2. injection H2 as H2 H3.
  exists x. repeat split; [exact H1 | exact H2 | symmetry; exact H3].
Qed.

(** When the loop returns early, it returns a failure. *)
Lemma read_frames_returned (cap : capture) (idxs : list Z) (w w' : World)
  (v : bool * str) :
  read_frames env cap idxs w = (Ret (Returned v), w') -> fst v = false.
Proof.
  revert w; induction idxs as [|i rest IH]; intros w H.
  - discriminate H.
  - destruct (sample env cap w i) eqn:E.
    + rewrite (@read_frames_delivered _ _ rest _ E) in H. exact (IH _ H).
    + rewrite (@read_frames_no_frame _ _ rest _ E) in H.
      injection H as <- _. reflexivity.
    + destruct (@read_frames_raised _ _ rest _ _ E) as (evs & E' & _).
      rewrite E' in H. discriminate H.
Qed.

(** The probe step always completes, and it lets through exactly the
    videos for which [ffprobe] is missing or reports a duration that is
    not [<= 0]. *)
Lemma probe_duration_cases (file_path : str) (w : World) :
  exists p,
    probe_duration env file_path w = (Ret p, w ++ [EvProbe file_path])
    /\ match p with
       | Normal _ => probe_passes env file_path
       | Returned v => fst v = false /\ ~ probe_passes env file_path
       end.
Proof.
  unfold probe_duration, try_except, bind, emit, lift, ret, probe_passes.
  destruct (ffprobe env file_path) as [out|e] eqn:Hp.
  - destruct (float_of_str (strip out)) as [d|e] eqn:Hf.
    + destruct (float_le0 d) eqn:Hd.
      * eexists. split; [reflexivity|]. split; [reflexivity|].
        intros [(msg & H) | (out' & H & [(d' & H1 & H2) | (msg & H1)])];
          try discriminate; injection H as <-; congruence.
      * eexists. split; [reflexivity|].
        right. exists out. split; [reflexivity|]. left. exists d. auto.
    + destruct e as [m|m|m|m];
        (eexists; split; [reflexivity|]);
        try (split; [reflexivity|];
             intros [(msg & H) | (out' & H & [(d' & H1 & H2) | (msg & H1)])];
             try discriminate; injection H as <-; congruence).
      right. exists out. split; [reflexivity|]. right. exists m. exact Hf.
  - destruct e as [m|m|m|m];
      (eexists; split; [reflexivity|]);
      try (split; [reflexivity|];
           intros [(msg & H) | (out' & H & _)]; discriminate).
    left. exists m. reflexivity.
Qed.

(** The body of the second [try] answers ok=true only for a capture that
    is open, has four valid properties and delivers the three sampled
    frames. *)
Lemma check_video_body_passed (duration : float) (file_path msg : str)
  (w1 w3 : World) :
  check_video_body env duration
    {| cap_id := length w1; cap_path := file_path |}
    (w1 ++ [EvCapNew (length w1) file_path]) = (Ret (true, msg), w3) ->
  VideoCapture_isOpened env file_path = Ret true
  /\ exists xfc fps xw xh frame_count width height,
      VideoCapture_get env file_path CAP_PROP_FRAME_COUNT = Ret xfc
      /\ int_of_float xfc = Ret frame_count
      /\ VideoCapture_get env file_path CAP_PROP_FPS = Ret fps
      /\ VideoCapture_get env file_path CAP_PROP_FRAME_WIDTH = Ret xw
      /\ int_of_float xw = Ret width
      /\ VideoCapture_get env file_path CAP_PROP_FRAME_HEIGHT = Ret xh
      /\ int_of_float xh = Ret height
      /\ (0 < frame_count)%Z /\ float_le0 fps = false
      /\ (0 < width)%Z /\ (0 < height)%Z
      /\ reads_through env
           {| cap_id := length w1; cap_path := file_path |}
           (sampling_start w1 file_path) (test_frames frame_count) 3.
Proof.
  set (cap := {| cap_id := length w1; cap_path := file_path |}).
  intros H. unfold check_video_body in H.
  apply bind_inv in H. destruct H as (opened & wa & H1 & H).
  rewrite cap_isOpened_run in H1. injection H1 as Ho <-.
  destruct opened; cbn [negb] in H; [|discriminate H].
  apply bind_inv in H. destruct H as (frame_count & wb & H2 & H).
  apply cap_get_int_inv in H2. destruct H2 as (xfc & Hfc & Hfci & ->).
  apply bind_inv in H. destruct H as (fps & wc & H3 & H).
  apply cap_get_inv in H3. destruct H3 as (Hfps & ->).
  apply bind_inv in H. destruct H as (width & wd & H4 & H).
  apply cap_get_int_inv in H4. destruct H4 as (xw & Hw & Hwi & ->).
  apply bind_inv in H. destruct H as (height & we & H5 & H).
  apply cap_get_int_inv in H5. destruct H5 as (xh & Hh & Hhi & ->).
  destruct (frame_count <=? 0)%Z eqn:Efc; [discriminate H|].
  destruct (float_le0 fps) eqn:Efps; [discriminate H|].
  destruct ((width <=? 0)%Z || (height <=? 0)%Z) eqn:Edim; [discriminate H|].
  apply orb_false_iff in Edim. destruct Edim as (Ew & Eh).
  apply Z.leb_gt in Efc, Ew, Eh.
  apply bind_inv in H. destruct H as (r & wf & Hr & H).
  destruct r as [v|[]].
  { apply read_frames_returned in Hr. injection H as Hv _.
    rewrite Hv in Hr. discriminate Hr. }
  apply read_frames_fell_through in Hr.
  split; [exact Ho|].
  exists xfc, fps, xw, xh, frame_count, width, height.
  repeat (split; [assumption|]).
  unfold sampling_start. cbn [cap_id cap] in Hr.
  repeat rewrite <- app_assoc in Hr. exact Hr.
Qed.

(** The second [try] always answers, and it answers ok=true for exactly
    the captures that pass every step. *)
Lemma check_video_frames_sound (duration : float) (file_path : str)
  (w1 : World) :
  exists ok msg w',
    check_video_frames env duration file_path w1 = (Ret (ok, msg), w')
    /\ (ok = true <-> capture_sound env file_path w1).
Proof.
  unfold capture_sound.
  destruct (VideoCapture_new env file_path) as [[]|e] eqn:Hnew.
  2:{ eexists false, _, _. split.
      - unfold check_video_frames, try_capture, cv2_VideoCapture.
        rewrite Hnew. unfold try_finally, ret.
        rewrite video_handlers_failure. reflexivity.
      - split; [discriminate|]. intros (H & _). discriminate H. }
  set (cap := {| cap_id := length w1; cap_path := file_path |}).
  destruct (check_video_body env duration cap
              (w1 ++ [EvCapNew (length w1) file_path]))
    as [r w3] eqn:Hbody.
  pose proof (@check_video_frames_acquired duration file_path w1 w3 r
                Hnew Hbody) as E.
  assert (Hsound :
    capture_sound env file_path w1 ->
    exists w4, check_video_body env duration cap
                 (w1 ++ [EvCapNew (length w1) file_path])
               = (Ret (true, video_ok duration
                               match VideoCapture_get env file_path
                                       CAP_PROP_FRAME_WIDTH with
                               | Ret x => match int_of_float x with
                                          | Ret n => n
                                          | Raise _ => 0%Z
                                          end
                               | Raise _ => 0%Z
                               end
                               match VideoCapture_get env file_path
                                       CAP_PROP_FRAME_HEIGHT with
                               | Ret x => match int_of_float x with
                                          | Ret n => n
                                          | Raise _ => 0%Z
                                          end
                               | Raise _ => 0%Z
                               end
                               match VideoCapture_get env file_path
                                       CAP_PROP_FRAME_COUNT with
                               | Ret x => match int_of_float x with
                                          | Ret n => n
                                          | Raise _ => 0%Z
                                          end
                               | Raise _ => 0%Z
                               end), w4)).
  { intros (_ & Ho & xfc & fps & xw & xh & fc & width & height
            & Hfc & Hfci & Hfps & Hw & Hwi & Hh & Hhi
            & Pfc & Pfps & Pw & Ph & Hall).
    pose proof (@check_video_body_sampling duration file_path w1 _ _ _ _ _ _ _
                  Ho Hfc Hfci Hfps Hw Hwi Hh Hhi Pfc Pfps Pw Ph) as Hb.
    cbv zeta in Hb. fold cap in Hb, Hall.
    rewrite Hb. unfold bind.
    rewrite (@read_frames_through cap 3 (test_frames fc) _ (le_n 3) Hall).
    cbn [skipn test_frames read_frames]. unfold ret.
    rewrite Hfc, Hfci, Hw, Hwi, Hh, Hhi. eexists. reflexivity. }
  destruct r as [[[|] msg]|e].
  - eexists true, msg, _. split; [exact E|].
    split; [intros _|reflexivity].
    split; [reflexivity|]. exact (check_video_body_passed _ _ _ Hbody).
  - eexists false, msg, _. split; [exact E|].
    split; [discriminate|].
    intros Hs. destruct (Hsound (conj Hnew (proj2 Hs))) as (w4 & Hb).
    fold cap in Hbody. rewrite Hbody in Hb. discriminate Hb.
  - eexists false, _, _. split; [exact E|].
    split; [discriminate|].
    intros Hs. destruct (Hsound (conj Hnew (proj2 Hs))) as (w4 & Hb).
    fold cap in Hbody. rewrite Hbody in Hb. discriminate Hb.
Qed.

(** The whole check always answers, and it answers ok=true for exactly
    the videos that pass every step. *)
Lemma check_video_sound (file_path : str) (w : World) :
  exists ok msg w',
    check_video_integrity env file_path w = (Ret (ok, msg), w')
    /\ (ok = true <-> video_sound env file_path w).
Proof.
  unfold check_video_integrity, video_sound.
  destruct (probe_duration_cases file_path w) as (p & Ep & Hp).
  rewrite (bind_Ret _ _ _ Ep). destruct p as [[ok msg]|duration].
  - destruct Hp as (Hok & Hno). cbn in Hok. subst ok.
    eexists false, msg, _. split; [reflexivity|].
    split; [discriminate|]. intros (H & _). destruct (Hno H).
  - destruct (check_video_frames_sound duration file_path
                (w ++ [EvProbe file_path])) as (ok & msg & w' & E & Hiff).
    exists ok, msg, w'. split; [exact E|]. split.
    + intros H. split; [exact Hp | apply Hiff, H].
    + intros (_ & H). apply Hiff, H.
Qed.

(** C5, as the source has it: the frames are sampled once the probe step
    has fallen through, the capture has opened and frame count, frame
    rate, width and height are all positive.  The check then seeks to the
    indices 0, min(100, frame_count // 2) and max(0, frame_count - 5) in
    this order and reads a frame after each seek; what a seek and a read
    answer is judged in the state the earlier seeks and reads have left
    the capture in.  When all three frames are delivered the check
    returns ok=true.  At the first index where the read reports failure or
    hands back no frame, it returns ok=false with the message that names
    this index, and no further index is sought; if the seek or the read
    raises there, it returns ok=false with the message of the handler.
    The capture is released last in each case. *)
Theorem sampled_frames (file_path : str) (w w1 : World)
  (duration fps xfc xw xh : float) (frame_count width height : Z) :
  probe_duration env file_path w = (Ret (Normal duration), w1) ->
  VideoCapture_new env file_path = Ret tt ->
  VideoCapture_isOpened env file_path = Ret true ->
  VideoCapture_get env file_path CAP_PROP_FRAME_COUNT = Ret xfc ->
  int_of_float xfc = Ret frame_count ->
  VideoCapture_get env file_path CAP_PROP_FPS = Ret fps ->
  VideoCapture_get env file_path CAP_PROP_FRAME_WIDTH = Ret xw ->
  int_of_float xw = Ret width ->
  VideoCapture_get env file_path CAP_PROP_FRAME_HEIGHT = Ret xh ->
  int_of_float xh = Ret height ->
  (0 < frame_count)%Z -> float_le0 fps = false ->
  (0 < width)%Z -> (0 < height)%Z ->
  let id := length w1 in
  let cap := {| cap_id := id; cap_path := file_path |} in
  let w3 := sampling_start w1 file_path in
  let idxs := test_frames frame_count in
  idxs = [0; Z.min 100 (frame_count / 2); Z.max 0 (frame_count - 5)]%Z
  /\ (reads_through env cap w3 idxs 3 ->
      check_video_integrity env file_path w =
        (Ret (true, video_ok duration width height frame_count),
         (w3 ++ sampling_trace id idxs) ++ [EvCapRelease id]))
  /\ (forall k, k < 3 ->
      reads_through env cap w3 idxs k ->
      let w4 := w3 ++ sampling_trace id (firstn k idxs) in
      let idx := nth k idxs 0%Z in
      (sample env cap w4 idx = NoFrame ->
       check_video_integrity env file_path w =
         (Ret (false, u "帧" ++ str_of_Z idx ++ u "读取失败，视频可能损坏"),
          w4 ++ [EvCapSeek id idx; EvCapRead id; EvCapRelease id]))
      /\ (forall e, sample env cap w4 idx = SampleRaised e ->
          exists evs,
            check_video_integrity env file_path w =
              (Ret (false, video_failure e),
               (w4 ++ evs) ++ [EvCapRelease id])
            /\ seeks evs = [idx])).
Proof.
  intros Hprobe Hnew Hopened Hfc Hfci Hfps Hw Hwi Hh Hhi
         Pfc Pfps Pw Ph id cap w3 idxs.
  pose proof (fun r w4 =>
                @check_video_sampling file_path w w1 w4 duration fps xfc xw
                  xh frame_count width height r Hprobe Hnew Hopened Hfc
                  Hfci Hfps Hw Hwi Hh Hhi Pfc Pfps Pw Ph) as Hcheck.
  fold id cap w3 idxs in Hcheck.
  split; [reflexivity|]. split.
  - intros Hall.
    assert (Hloop : read_frames env cap idxs w3 =
                    (Ret (Normal tt), w3 ++ sampling_trace id idxs)).
    { rewrite (@read_frames_through cap 3 idxs w3 (le_n 3) Hall).
      reflexivity. }
    rewrite (Hcheck _ _ Hloop). reflexivity.
  - intros k Hk Hthrough w4 idx.
    assert (Hlen : k <= length idxs) by (cbn; lia).
    pose proof (@read_frames_through cap k idxs w3 Hlen Hthrough) as Hgo.
    change (w3 ++ sampling_trace (cap_id cap) (firstn k idxs)) with w4
      in Hgo.
    assert (Hskip : exists rest, skipn k idxs = idx :: rest).
    { unfold idx, idxs, test_frames.
      destruct k as [|[|[|k]]]; cbn; eauto; lia. }
    destruct Hskip as (rest & Hskip). rewrite Hskip in Hgo. split.
    + intros Hno.
      rewrite (@read_frames_no_frame _ _ rest _ Hno) in Hgo.
      rewrite (Hcheck _ _ Hgo). unfold frame_failed.
      rewrite <- app_assoc. reflexivity.
    + intros e Hraised.
      destruct (@read_frames_raised _ _ rest _ _ Hraised) as (evs & E & S & _).
      rewrite E in Hgo. exists evs. split; [|exact S].
      rewrite (Hcheck _ _ Hgo). reflexivity.
Qed.

End VideoFacts.

(** [ffprobe] missing for [tail.mp4], a duration of zero for [live.flv],
    a failing probe for [zero.mkv]. *)
Lemma probe_policy_witness :
  check_video_integrity sample_env (u "/media/tail.mp4") [] =
    check_video_frames sample_env float_zero (u "/media/tail.mp4")
      ([] ++ [EvProbe (u "/media/tail.mp4")])
  /\ check_video_integrity sample_env (u "/media/live.flv") [] =
       (Ret (false, u "无效视频时长: " ++ float_str float_zero ++ u "秒"),
        [] ++ [EvProbe (u "/media/live.flv")])
  /\ check_video_integrity sample_env (u "/media/zero.mkv") [] =
       (Ret (false, u "ffprobe检测失败: "
                      ++ slice_to 80 (exn_str probe_failed)),
        [] ++ [EvProbe (u "/media/zero.mkv")]).
Proof.
  split; [|split].
  - apply (proj1 (probe_policy sample_env (u "/media/tail.mp4") [])
             (u "[Errno 2] No such file or directory: 'ffprobe'")).
    reflexivity.
  - apply (proj1 (proj2 (probe_policy sample_env (u "/media/live.flv") []))
             (u "0.0" ++ nl) float_zero); reflexivity.
  - apply (proj2 (proj2 (probe_policy sample_env (u "/media/zero.mkv") []))
             probe_failed); [left; reflexivity | reflexivity].
Defined.

(** [tail.mp4] has 300 frames of which frame 295 cannot be read: frames 0
    and 100 are delivered, the third read fails. *)
Lemma sampled_frames_witness :
  check_video_integrity sample_env (u "/media/tail.mp4") [] =
    (Ret (false, u "帧295读取失败，视频可能损坏"),
     (sampling_start [EvProbe (u "/media/tail.mp4")] (u "/media/tail.mp4")
        ++ sampling_trace 1 [0; 100]%Z)
       ++ [EvCapSeek 1 295; EvCapRead 1; EvCapRelease 1]).
Proof.
  destruct (@sampled_frames builtins sample_env (u "/media/tail.mp4") []
              [EvProbe (u "/media/tail.mp4")] float_zero
              (float_of_Z 25) (float_of_Z 300) (float_of_Z 1280)
              (float_of_Z 720) 300 1280 720)
    as (_ & _ & H); [vm_compute; reflexivity .. |].
  destruct (H 2) as (Hno & _).
  - lia.
  - intros [|[|j]] Hj; [vm_compute; reflexivity | vm_compute; reflexivity
                        | lia].
  - specialize (Hno ltac:(vm_compute; reflexivity)).
    rewrite Hno. vm_compute. reflexivity.
Defined.

(** C5 as worded, with a positive frame count as its only condition, does
    not hold: [still.avi] reports 10 frames and a frame rate of 0, and the
    check returns the invalid-frame-rate failure without seeking to any
    frame. *)
Lemma positive_frame_count_does_not_reach_sampling :
  ~ (forall (rt : PyBuiltins) (env : Env) (file_path : str) (w : World)
            (xfc : float) (frame_count : Z),
        VideoCapture_get env file_path CAP_PROP_FRAME_COUNT = Ret xfc ->
        int_of_float xfc = Ret frame_count ->
        (0 < frame_count)%Z ->
        exists r evs,
          check_video_integrity env file_path w = (r, w ++ evs)
          /\ seeks evs
             = [0; Z.min 100 (frame_count / 2); Z.max 0 (frame_count - 5)]%Z).
Proof.
  intros H.
  destruct (H builtins sample_env (u "/media/still.avi") []
              (float_of_Z 10) 10%Z) as (r & evs & E & S);
    try reflexivity.
  vm_compute in E. injection E as _ <-. discriminate S.
Qed.

Example still_avi_run :
  fst (check_video_integrity sample_env (u "/media/still.avi") []) =
    Ret (false, u "无效帧率: 0.0")
  /\ seeks (snd (check_video_integrity sample_env (u "/media/still.avi") []))
     = [].
Proof. split; vm_compute; reflexivity. Qed.

(** A video of a single frame: the three sampled indices are all 0, the
    first read delivers the frame and the second, after seeking to frame
    0 again, does not.  The check reports the video as damaged. *)
Example one_frame_video_run :
  test_frames 1 = [0; 0; 0]%Z
  /\ fst (check_video_integrity Faulty.short_env (u "/media/one.mp4") []) =
       Ret (false, u "帧0读取失败，视频可能损坏")
  /\ seeks (snd (check_video_integrity Faulty.short_env
                   (u "/media/one.mp4") []))
     = [0; 0]%Z.
Proof. split; [|split]; vm_compute; reflexivity. Qed.

(** What [cap.set] returns is not looked at: a capture whose seeks all
    answer [False] passes as long as its reads deliver frames. *)
Example failed_seek_is_ignored :
  fst (check_video_integrity Faulty.stream_env (u "/media/live.mp4") []) =
    Ret (true, u "视频正常 (时长: 0.0秒, 分辨率: 1280x720, 帧数: 300)")
  /\ seeks (snd (check_video_integrity Faulty.stream_env
                   (u "/media/live.mp4") []))
     = [0; 100; 295]%Z.
Proof. split; vm_compute; reflexivity. Qed.
(** ** [run_checks], the report and [main] *)

Section RunFacts.

Context {rt : PyBuiltins} (env : Env).

Lemma image_handlers_answer (e : exn) (w : World) :
  exists msg, image_handlers e w = (Ret (false, msg), w).
Proof. destruct e; eexists; reflexivity. Qed.

Lemma check_image_integrity_total (file_path : str) :
  total (check_image_integrity env file_path).
Proof.
  apply total_try_except. intros e w.
  destruct (image_handlers_answer e w) as (msg & E).
  exists (false, msg), w. exact E.
Qed.

Lemma row_ok_row_of (p t : str) (answer : bool * str) :
  row_ok (row_of p t answer) = fst answer.
Proof. destruct answer as [[|] msg]; reflexivity. Qed.

Lemma extends_by_nil (self : Checker) : extends_by self self [].
Proof.
  unfold extends_by, set_results, count_ok. simpl.
  rewrite app_nil_r, Z.add_0_r. destruct self; reflexivity.
Qed.

Lemma count_ok_app (a b : list result_row) :
  count_ok (a ++ b) = (count_ok a + count_ok b)%Z.
Proof.
  unfold count_ok, len. rewrite filter_app, length_app. lia.
Qed.

Lemma extends_by_trans (a b c : Checker) (r1 r2 : list result_row) :
  extends_by a b r1 -> extends_by b c r2 -> extends_by a c (r1 ++ r2).
Proof.
  unfold extends_by. intros -> ->. unfold set_results; simpl.
  rewrite count_ok_app, app_assoc, Z.add_assoc. reflexivity.
Qed.

Lemma count_ok_row_of (p t : str) (answer : bool * str) :
  count_ok [row_of p t answer] = if fst answer then 1%Z else 0%Z.
Proof.
  unfold count_ok. cbn [filter]. rewrite row_ok_row_of.
  destruct (fst answer); reflexivity.
Qed.

Lemma row_for_row_of (dir f : str) (answer : bool * str) :
  row_for env dir f (row_of (os_path_relpath env f dir) (file_type_of f)
                       answer).
Proof.
  unfold row_for, row_of. cbn. repeat split.
  destruct (fst answer); [left | right]; reflexivity.
Qed.

(** *** The console and the report file *)

(** A [print] shows its text, or raises what the console raised and
    shows nothing. *)
Lemma print_cases (text : str) (w : World) :
  (stdout_write env w text = Ret tt
   /\ print env text w = (Ret tt, w ++ [EvPrint text]))
  \/ (exists e, stdout_write env w text = Raise e
                /\ print env text w = (Raise e, w)).
Proof.
  unfold print. destruct (stdout_write env w text) as [[]|e].
  - left; split; reflexivity.
  - right; exists e; split; reflexivity.
Qed.

Lemma appends_print (P : event -> Prop) (text : str) :
  P (EvPrint text) -> appends P (print env text).
Proof.
  intros H w. destruct (print_cases text w) as [(_ & E)|(e & _ & E)];
    rewrite E.
  - exists [EvPrint text]; auto.
  - exists []; rewrite app_nil_r; auto.
Qed.

Lemma console_ok_raises (w : World) (e : exn) :
  console_ok env -> console_raises env w e -> False.
Proof. intros Hok (text & H). rewrite (Hok w text) in H. discriminate H. Qed.

Lemma output_ok_raises (w : World) (e : exn) :
  console_ok env -> files_ok env -> output_raises env w e -> False.
Proof.
  intros Hc Hf [H | [(file & H) | (file & text & H)]].
  - exact (console_ok_raises Hc H).
  - rewrite (proj1 (Hf w file)) in H. discriminate H.
  - rewrite (proj2 (Hf w file) text) in H. discriminate H.
Qed.

(** [with open(...) as f: f.write(text)]: the file is written in full, or
    [open] raised and the file was not touched, or [f.write] raised and
    the file is left empty. *)
Lemma write_text_file_cases (file text : str) (w : World) :
  write_text_file env file text w
  = (Ret tt, w ++ [EvOpenFile file; EvWriteFile file text])
  \/ (exists e, file_open_w env w file = Raise e
                /\ write_text_file env file text w = (Raise e, w))
  \/ (exists e, file_write env (w ++ [EvOpenFile file]) file text = Raise e
                /\ write_text_file env file text w
                   = (Raise e, w ++ [EvOpenFile file])).
Proof.
  unfold write_text_file.
  destruct (file_open_w env w file) as [[]|e].
  - cbv zeta.
    destruct (file_write env (w ++ [EvOpenFile file]) file text) as [[]|e].
    + left. rewrite <- app_assoc. reflexivity.
    + right; right. exists e. split; reflexivity.
  - right; left. exists e. split; reflexivity.
Qed.





Lemma device_not_write (ev : event) : device_event ev -> not_write ev.
Proof. destruct ev; simpl; auto. Qed.

(** *** What a check does to the outside world *)

(** A check calls the probe, Pillow and OpenCV; it prints nothing and
    writes no file. *)
Lemma check_image_integrity_device (file_path : str) :
  appends device_event (check_image_integrity env file_path).
Proof.
  unfold check_image_integrity, with_Image_open, PIL_Image_open.
  apply appends_try_except.
  - apply appends_bind.
    + apply appends_bind; [apply appends_bind|].
      * apply appends_emit; exact I.
      * intros _; apply appends_lift.
      * intros img. apply appends_try_finally;
          [|apply appends_emit; exact I].
        unfold check_image_body, PIL_load.
        destruct (_ || _); [apply appends_ret|].
        apply appends_bind.
        -- apply appends_bind; [apply appends_emit; exact I|].
           intros _; apply appends_lift.
        -- intros _. cbv zeta.
           repeat match goal with
                  | |- appends _ (if ?b then _ else _) => destruct b
                  end; apply appends_ret.
    + intros [v|[]]; apply appends_ret.
  - intros e; destruct e; unfold image_handlers; apply appends_ret.
Qed.

Lemma appends_call {A} (P : event -> Prop) (ev : event) (r : res A) :
  P ev -> appends P (emit ev ;; lift r).
Proof.
  intros H. apply appends_bind; [apply appends_emit, H|].
  intros _; apply appends_lift.
Qed.

Lemma read_frames_device (cap : capture) (idxs : list Z) :
  appends device_event (read_frames env cap idxs).
Proof.
  induction idxs as [|i idxs IH]; cbn [read_frames]; [apply appends_ret|].
  apply appends_bind; [apply appends_cap_set_pos; exact I|]. intros _.
  apply appends_bind; [apply appends_cap_read; exact I|].
  intros [[|] [f|]]; try apply appends_ret. exact IH.
Qed.

Lemma check_video_body_device (duration : float) (cap : capture) :
  appends device_event (check_video_body env duration cap).
Proof.
  unfold check_video_body, cap_isOpened, cap_get.
  apply appends_bind; [apply appends_call; exact I|].
  intros [|]; cbn [negb]; [|apply appends_ret].
  apply appends_bind.
  { apply appends_bind; [apply appends_call; exact I|].
    intros x; apply appends_lift. }
  intros frame_count.
  apply appends_bind; [apply appends_call; exact I|]. intros fps.
  apply appends_bind.
  { apply appends_bind; [apply appends_call; exact I|].
    intros x; apply appends_lift. }
  intros width.
  apply appends_bind.
  { apply appends_bind; [apply appends_call; exact I|].
    intros x; apply appends_lift. }
  intros height.
  repeat match goal with
         | |- appends _ (if ?b then _ else _) => destruct b
         end; try apply appends_ret.
  apply appends_bind; [apply read_frames_device|].
  intros [v|[]]; apply appends_ret.
Qed.

Lemma check_video_integrity_device (file_path : str) :
  appends device_event (check_video_integrity env file_path).
Proof.
  unfold check_video_integrity. apply appends_bind.
  - unfold probe_duration. apply appends_try_except.
    + apply appends_bind; [apply appends_call; exact I|]. intros out.
      apply appends_bind; [apply appends_lift|]. intros d.
      destruct (float_le0 d); apply appends_ret.
    + intros e; destruct e; apply appends_ret.
  - intros [v|duration]; [apply appends_ret|].
    intros w. unfold check_video_frames, try_capture, cv2_VideoCapture.
    destruct (VideoCapture_new env file_path) as [[]|e].
    + set (cap := {| cap_id := length w; cap_path := file_path |}).
      assert (Hm : appends device_event
                     (try_finally
                        (try_except (check_video_body env duration cap)
                           video_handlers)
                        (cap_release cap))).
      { apply appends_try_finally; [|apply appends_emit; exact I].
        apply appends_try_except; [apply check_video_body_device|].
        intros e; destruct e; unfold video_handlers; apply appends_ret. }
      destruct (Hm (w ++ [EvCapNew (length w) file_path]))
        as (evs & E & F).
      exists (EvCapNew (length w) file_path :: evs).
      rewrite E, <- app_assoc. split; [reflexivity|].
      constructor; [exact I | exact F].
    + assert (Hm : appends device_event
                     (try_finally (video_handlers e) (ret tt))).
      { apply appends_try_finally; [|apply appends_ret].
        destruct e; unfold video_handlers; apply appends_ret. }
      destruct (Hm (w ++ [EvCapNewFailed file_path])) as (evs & E & F).
      exists (EvCapNewFailed file_path :: evs).
      rewrite E, <- app_assoc. split; [reflexivity|].
      constructor; [exact I | exact F].
Qed.

(** The dispatch of [run_checks] on the extension: whichever check is
    called, it answers. *)
Lemma check_dispatch (file_path : str) (w : World) :
  exists answer evs,
    (if str_in (file_ext_of file_path) SUPPORTED_IMAGES
     then r <- check_image_integrity env file_path ;; ret (r, u "IMAGE")
     else r <- check_video_integrity env file_path ;; ret (r, u "VIDEO")) w
    = (Ret (answer, file_type_of file_path), w ++ evs)
    /\ Forall device_event evs.
Proof.
  unfold file_type_of.
  destruct (str_in (file_ext_of file_path) SUPPORTED_IMAGES).
  - destruct (check_image_integrity_total file_path w)
      as (answer & w' & E).
    destruct (check_image_integrity_device file_path w) as (evs & E' & F).
    rewrite E in E'. simpl in E'. subst w'.
    exists answer, evs. rewrite (bind_Ret _ _ _ E). split; [reflexivity|exact F].
  - destruct (check_video_integrity_total env file_path w)
      as (answer & w' & E).
    destruct (check_video_integrity_device file_path w) as (evs & E' & F).
    rewrite E in E'. simpl in E'. subst w'.
    exists answer, evs. rewrite (bind_Ret _ _ _ E). split; [reflexivity|exact F].
Qed.

Lemma check_image_integrity_appends (file_path : str) :
  appends neutral (check_image_integrity env file_path).
Proof.
  unfold check_image_integrity, with_Image_open, PIL_Image_open.
  apply appends_try_except.
  - apply appends_bind.
    + apply appends_bind; [auto with trace|]. intros img.
      apply appends_try_finally; [|auto with trace].
      unfold check_image_body, PIL_load.
      destruct (_ || _); [auto with trace|].
      apply appends_bind; [auto with trace|]. intros _. cbv zeta.
      repeat match goal with
             | |- appends _ (if ?b then _ else _) => destruct b
             end; auto with trace.
    + intros [v|[]]; auto with trace.
  - intros e; destruct e; unfold image_handlers; auto with trace.
Qed.

Lemma balanced_print (text : str) : balanced (print env text).
Proof. apply balanced_of_neutral, appends_print. exact I. Qed.

Lemma balanced_ret {A} (a : A) : balanced (ret a).
Proof. apply balanced_of_neutral, appends_ret. Qed.

(** Each file is checked with captures of its own: when the iteration for
    a file ends, every capture it acquired has been released. *)
Lemma check_file_balanced (self : Checker) (idx : Z) (file_path : str) :
  balanced (check_file env self idx file_path).
Proof.
  unfold check_file.
  apply balanced_bind; [apply balanced_print|].
  intros _. apply balanced_bind.
  - destruct (str_in _ _).
    + apply balanced_bind;
        [apply balanced_of_neutral, check_image_integrity_appends|].
      intros r. apply balanced_ret.
    + apply balanced_bind; [apply check_video_integrity_balanced|].
      intros r. apply balanced_ret.
  - intros checked. apply balanced_bind; [apply balanced_print|].
    intros _. apply balanced_ret.
Qed.

Lemma check_files_balanced (files : list str) (self : Checker) (idx : Z) :
  balanced (check_files env self idx files).
Proof.
  revert self idx; induction files as [|f files IH]; intros self idx.
  - apply balanced_ret.
  - cbn [check_files]. apply balanced_bind; [apply check_file_balanced|].
    intros self'. apply IH.
Qed.

(** *** The loop *)

(** One iteration of the loop.  The check of the file always answers; the
    iteration appends one row for it, unless one of its two [print]s
    raises: then the exception leaves the iteration, and it is what the
    console raised. *)
Lemma check_file_full (self : Checker) (idx : Z) (file_path : str)
  (w : World) :
  exists r evs,
    check_file env self idx file_path w = (r, w ++ evs)
    /\ Forall not_write evs
    /\ match r with
       | Ret self' =>
           exists answer,
             extends_by self self'
               [row_of (os_path_relpath env file_path (directory self))
                       (file_type_of file_path) answer]
       | Raise e => console_raises env (w ++ evs) e
       end.
Proof.
  unfold check_file.
  set (line := u "[" ++ _).
  destruct (print_cases line w) as [(_ & E)|(e & He & E)].
  - rewrite (bind_Ret _ _ _ E).
    destruct (check_dispatch file_path (w ++ [EvPrint line]))
      as (answer & evs & E2 & F).
    rewrite (bind_Ret _ _ _ E2). cbn [fst snd].
    set (status_line := u "     状态: " ++ _).
    assert (Fmid : Forall not_write ([EvPrint line] ++ evs)).
    { apply Forall_app; split; [repeat constructor|].
      eapply Forall_impl; [apply device_not_write | exact F]. }
    destruct (print_cases status_line ((w ++ [EvPrint line]) ++ evs))
      as [(_ & E3)|(e & He & E3)].
    + rewrite (bind_Ret _ _ _ E3).
      eexists (Ret _), (([EvPrint line] ++ evs) ++ [EvPrint status_line]).
      split; [|split].
      * unfold ret. repeat rewrite <- app_assoc. reflexivity.
      * apply Forall_app; split; [exact Fmid | repeat constructor].
      * exists answer. unfold extends_by. rewrite count_ok_row_of.
        unfold row_of.
        destruct answer as [[|] msg]; cbn [fst snd];
          [reflexivity | rewrite Z.add_0_r; reflexivity].
    + rewrite (bind_Raise _ _ _ E3).
      exists (Raise e), ([EvPrint line] ++ evs).
      rewrite app_assoc. split; [reflexivity|]. split; [exact Fmid|].
      exists status_line. exact He.
  - rewrite (bind_Raise _ _ _ E).
    exists (Raise e), []. rewrite app_nil_r.
    split; [reflexivity|]. split; [constructor|].
    exists line. exact He.
Qed.

(** The loop: it appends the rows of the files in their order, unless a
    [print] raises on the way. *)
Lemma check_files_full (files : list str) (self : Checker) (idx : Z)
  (w : World) :
  exists r evs,
    check_files env self idx files w = (r, w ++ evs)
    /\ Forall not_write evs
    /\ match r with
       | Ret self' =>
           exists rows,
             extends_by self self' rows
             /\ Forall2 (row_for env (directory self)) files rows
       | Raise e => console_raises env (w ++ evs) e
       end.
Proof.
  revert self idx w; induction files as [|f files IH]; intros self idx w.
  - exists (Ret self), []. rewrite app_nil_r.
    split; [reflexivity|]. split; [constructor|].
    exists []. split; [apply extends_by_nil | constructor].
  - destruct (check_file_full self idx f w) as ([s1|e] & e1 & E1 & F1 & H1).
    + destruct H1 as (a & X1).
      destruct (IH s1 (idx + 1)%Z (w ++ e1)) as (r & e2 & E2 & F2 & H2).
      exists r, (e1 ++ e2). cbn [check_files].
      rewrite (bind_Ret _ _ _ E1), E2, app_assoc.
      split; [reflexivity|].
      split; [apply Forall_app; split; assumption|].
      destruct r as [s2|e]; [|exact H2].
      destruct H2 as (rows & X2 & R2).
      assert (Hdir : directory s1 = directory self)
        by (unfold extends_by in X1; subst s1; reflexivity).
      rewrite Hdir in R2.
      exists ([row_of (os_path_relpath env f (directory self))
                 (file_type_of f) a] ++ rows).
      split; [exact (extends_by_trans X1 X2)|].
      constructor; [apply row_for_row_of | exact R2].
    + exists (Raise e), e1. cbn [check_files].
      rewrite (bind_Raise _ _ _ E1).
      split; [reflexivity|]. split; assumption.
Qed.

(** [run_checks]: when the scan found nothing it leaves the checker as
    the scan left it, otherwise it holds one row per file, in order, and
    the three counters are set from those rows; it is cut short only by
    a [print] that raises. *)
Lemma run_checks_full (self : Checker) (w : World) :
  let self1 := match media_files self with
               | [] => scan_media_files env self
               | _ :: _ => self
               end in
  exists r evs,
    run_checks env self w = (r, w ++ evs)
    /\ Forall not_write evs
    /\ match r with
       | Ret self' =>
           match media_files self1 with
           | [] => self' = self1
           | _ :: _ =>
               exists rows,
                 Forall2 (row_for env (directory self1))
                   (media_files self1) rows
                 /\ self' = set_error_count
                              (set_results self1 rows (count_ok rows))
                              (total_count self1 - count_ok rows)%Z
           end
       | Raise e => console_raises env (w ++ evs) e
       end.
Proof.
  intros self1. unfold run_checks. fold self1.
  destruct (media_files self1) as [|f fs] eqn:Efiles.
  - exists (Ret self1), []. rewrite app_nil_r.
    split; [reflexivity|]. split; [constructor | reflexivity].
  - destruct (check_files_full (f :: fs) (set_results self1 [] 0%Z) 1%Z w)
      as ([s2|e] & evs & E & F & H).
    + rewrite (bind_Ret _ _ _ E). eexists (Ret _), evs.
      split; [reflexivity|]. split; [exact F|].
      destruct H as (rows & X & R).
      exists rows. split; [exact R|].
      unfold extends_by in X. subst s2. reflexivity.
    + rewrite (bind_Raise _ _ _ E). exists (Raise e), evs.
      split; [reflexivity|]. split; assumption.
Qed.

(** What [save_report] does to the report file and the console. *)
Lemma save_report_full (self : Checker) (report : list str) (w : World) :
  match report_file self with
  | Some (c :: f) =>
      let file := c :: f in
      let text := join nl report in
      let saved := nl ++ u "完整报告已保存到: " ++ os_path_abspath env file in
      save_report env self report w
      = (Ret tt, w ++ [EvOpenFile file; EvWriteFile file text;
                       EvPrint saved])
      \/ exists e,
          (file_open_w env w file = Raise e
           /\ save_report env self report w = (Raise e, w))
          \/ (file_write env (w ++ [EvOpenFile file]) file text = Raise e
              /\ save_report env self report w
                 = (Raise e, w ++ [EvOpenFile file]))
          \/ (stdout_write env
                (w ++ [EvOpenFile file; EvWriteFile file text]) saved
              = Raise e
              /\ save_report env self report w
                 = (Raise e, w ++ [EvOpenFile file; EvWriteFile file text]))
  | _ => save_report env self report w = (Ret tt, w)
  end.
Proof.
  unfold save_report.
  destruct (report_file self) as [[|c f]|]; try reflexivity.
  cbv zeta.
  destruct (write_text_file_cases (c :: f) (join nl report) w)
    as [E | [(e & He & E) | (e & He & E)]].
  - rewrite (bind_Ret _ _ _ E).
    match goal with
    | |- context [print env ?t ?w0] =>
        destruct (print_cases t w0) as [(_ & E2)|(e & He & E2)]
    end.
    + left. rewrite E2, <- app_assoc. reflexivity.
    + right. exists e. right; right. split; [exact He | exact E2].
  - right. exists e. left. rewrite (bind_Raise _ _ _ E). split; auto.
  - right. exists e. right; left. rewrite (bind_Raise _ _ _ E). split; auto.
Qed.


(** What [run] leaves behind and what it does, in full.  A run is cut
    short only by a [print] that raises or by the report file, and then
    the file was not touched, or was opened and left empty, or was
    written before the last [print] raised. *)
Lemma run_full (self : Checker) (w : World) :
  let self1 := scan_media_files env self in
  exists r evs,
    run env self w = (r, w ++ evs)
    /\ match r with
       | Ret self' =>
           match media_files self1 with
           | [] =>
               self' = self1
               /\ evs = [EvPrint (u "正在扫描目录: " ++ directory self
                                   ++ u " "
                                   ++ (if recursive self then u "(递归模式)"
                                       else []));
                         EvPrint (u "未发现支持的媒体文件")]
           | _ :: _ =>
               exists rows mid,
                 Forall2 (row_for env (directory self1))
                   (media_files self1) rows
                 /\ self' = set_error_count
                              (set_results self1 rows (count_ok rows))
                              (total_count self1 - count_ok rows)%Z
                 /\ Forall not_write mid
                 /\ evs = mid
                      ++ match report_file self with
                         | Some (c :: f) =>
                             [EvOpenFile (c :: f);
                              EvWriteFile (c :: f)
                                (join nl (generate_report self'));
                              EvPrint (nl ++ u "完整报告已保存到: "
                                          ++ os_path_abspath env (c :: f))]
                         | _ =>
                             [EvPrint
                                (join nl (skipn 8 (generate_report self')))]
                         end
           end
       | Raise e =>
           output_raises env (w ++ evs) e
           /\ exists mid tail,
               evs = mid ++ tail /\ Forall not_write mid
               /\ (tail = []
                   \/ exists c f,
                       report_file self = Some (c :: f)
                       /\ (tail = [EvOpenFile (c :: f)]
                           \/ exists text,
                               tail = [EvOpenFile (c :: f);
                                       EvWriteFile (c :: f) text]))
       end.
Proof.
  intros self1. unfold run. fold self1.
  set (line := u "正在扫描目录: " ++ _).
  assert (Hstop : forall (e : exn) (mid : list event),
             console_raises env (w ++ mid) e -> Forall not_write mid ->
             output_raises env (w ++ mid) e
             /\ exists mid0 tail,
                 mid = mid0 ++ tail /\ Forall not_write mid0
                 /\ (tail = []
                     \/ exists c f,
                         report_file self = Some (c :: f)
                         /\ (tail = [EvOpenFile (c :: f)]
                             \/ exists text,
                                 tail = [EvOpenFile (c :: f);
                                         EvWriteFile (c :: f) text]))).
  { intros e mid He F. split; [left; exact He|].
    exists mid, []. rewrite app_nil_r. auto. }
  destruct (print_cases line w) as [(_ & E)|(e & He & E)].
  2:{ rewrite (bind_Raise _ _ _ E). exists (Raise e), [].
      split; [rewrite app_nil_r; reflexivity|].
      apply Hstop; [rewrite app_nil_r; exists line; exact He | constructor]. }
  rewrite (bind_Ret _ _ _ E).
  pose proof (run_checks_full self1) as Hrc. cbv zeta in Hrc.
  destruct (media_files self1) as [|f fs] eqn:Efiles.
  - destruct (print_cases (u "未发现支持的媒体文件") (w ++ [EvPrint line]))
      as [(_ & E2)|(e & He & E2)].
    + rewrite (bind_Ret _ _ _ E2). eexists (Ret _), _.
      unfold ret. rewrite <- app_assoc. split; [reflexivity|].
      split; reflexivity.
    + rewrite (bind_Raise _ _ _ E2). exists (Raise e), [EvPrint line].
      split; [reflexivity|].
      apply Hstop; [eexists; exact He | repeat constructor].
  - set (found := u "发现 " ++ _).
    destruct (print_cases found (w ++ [EvPrint line]))
      as [(_ & E2)|(e & He & E2)].
    2:{ rewrite (bind_Raise _ _ _ E2). exists (Raise e), [EvPrint line].
        split; [reflexivity|].
        apply Hstop; [eexists; exact He | repeat constructor]. }
    rewrite (bind_Ret _ _ _ E2).
    rewrite Efiles in Hrc.
    destruct (Hrc ((w ++ [EvPrint line]) ++ [EvPrint found]))
      as ([s2|e] & cevs & E3 & F & H3).
    2:{ rewrite (bind_Raise _ _ _ E3).
        exists (Raise e), ([EvPrint line; EvPrint found] ++ cevs).
        assert (Hw : w ++ [EvPrint line; EvPrint found] ++ cevs
                     = ((w ++ [EvPrint line]) ++ [EvPrint found]) ++ cevs)
          by (repeat rewrite <- app_assoc; reflexivity).
        rewrite Hw. split; [reflexivity|]. rewrite <- Hw.
        apply Hstop; [rewrite Hw; exact H3|].
        apply Forall_app; split; [repeat constructor | exact F]. }
    rewrite (bind_Ret _ _ _ E3).
    destruct H3 as (rows & R & Es2).
    set (summary := nl ++ _).
    set (pre := [EvPrint line; EvPrint found] ++ cevs).
    assert (Hpre : ((w ++ [EvPrint line]) ++ [EvPrint found]) ++ cevs
                   = w ++ pre)
      by (unfold pre; repeat rewrite <- app_assoc; reflexivity).
    assert (Fpre : Forall not_write pre)
      by (apply Forall_app; split; [repeat constructor | exact F]).
    rewrite Hpre.
    destruct (print_cases summary (w ++ pre)) as [(_ & E4)|(e & He & E4)].
    2:{ rewrite (bind_Raise _ _ _ E4). exists (Raise e), pre.
        split; [reflexivity|].
        apply Hstop; [eexists; exact He | exact Fpre]. }
    rewrite (bind_Ret _ _ _ E4).
    set (mid := pre ++ [EvPrint summary]).
    assert (Hmid : (w ++ pre) ++ [EvPrint summary] = w ++ mid)
      by (unfold mid; rewrite <- app_assoc; reflexivity).
    assert (Fmid : Forall not_write mid)
      by (apply Forall_app; split; [exact Fpre | repeat constructor]).
    rewrite Hmid.
    assert (Hrf : report_file s2 = report_file self)
      by (rewrite Es2; reflexivity).
    pose proof (save_report_full s2 (generate_report s2) (w ++ mid)) as Hsave.
    rewrite Hrf in Hsave |- *.
    destruct (report_file self) as [[|c f0]|] eqn:Erf; cbn [truthy].
    + (* an empty report path *)
      destruct (print_cases (join nl (skipn 8 (generate_report s2)))
                  (w ++ mid)) as [(_ & E5)|(e & He & E5)].
      * rewrite (bind_Ret _ _ _ E5). eexists (Ret s2), _.
        unfold ret. rewrite <- app_assoc. split; [reflexivity|].
        exists rows, mid. repeat split; assumption.
      * rewrite (bind_Raise _ _ _ E5). exists (Raise e), mid.
        split; [reflexivity|].
        split; [left; eexists; exact He|].
        exists mid, []. rewrite app_nil_r. auto.
    + (* a report file *)
      cbv zeta in Hsave.
      destruct Hsave as [E5 | (e & [(He & E5) | [(He & E5) | (He & E5)]])].
      * rewrite (bind_Ret _ _ _ E5). eexists (Ret s2), _.
        unfold ret. rewrite <- app_assoc. split; [reflexivity|].
        exists rows, mid. repeat split; assumption.
      * rewrite (bind_Raise _ _ _ E5). exists (Raise e), mid.
        split; [reflexivity|].
        split; [right; left; eexists; exact He|].
        exists mid, []. rewrite app_nil_r. auto.
      * rewrite (bind_Raise _ _ _ E5).
        exists (Raise e), (mid ++ [EvOpenFile (c :: f0)]).
        rewrite app_assoc. split; [reflexivity|].
        split; [right; right; eexists _, _; exact He|].
        exists mid, [EvOpenFile (c :: f0)].
        split; [reflexivity|]. split; [exact Fmid|].
        right. exists c, f0. split; [reflexivity|]. left; reflexivity.
      * rewrite (bind_Raise _ _ _ E5).
        eexists (Raise e), (mid ++ [EvOpenFile (c :: f0); EvWriteFile _ _]).
        rewrite app_assoc. split; [reflexivity|].
        split; [left; eexists; exact He|].
        eexists mid, _.
        split; [reflexivity|]. split; [exact Fmid|].
        right. exists c, f0. split; [reflexivity|].
        right; eexists; reflexivity.
    + (* no report path *)
      destruct (print_cases (join nl (skipn 8 (generate_report s2)))
                  (w ++ mid)) as [(_ & E5)|(e & He & E5)].
      * rewrite (bind_Ret _ _ _ E5). eexists (Ret s2), _.
        unfold ret. rewrite <- app_assoc. split; [reflexivity|].
        exists rows, mid. repeat split; assumption.
      * rewrite (bind_Raise _ _ _ E5). exists (Raise e), mid.
        split; [reflexivity|].
        split; [left; eexists; exact He|].
        exists mid, []. rewrite app_nil_r. auto.
Qed.

(** With a console that takes every text the checks run to the end; with
    files that can be written as well, so does the whole run. *)
Lemma run_checks_completes (self : Checker) (w : World) :
  console_ok env -> exists self' w', run_checks env self w = (Ret self', w').
Proof.
  intros Hc. destruct (run_checks_full self w) as ([s|e] & evs & E & _ & H).
  - eauto.
  - destruct (console_ok_raises Hc H).
Qed.

Lemma check_files_completes (files : list str) (self : Checker) (idx : Z)
  (w : World) :
  console_ok env ->
  exists self' w', check_files env self idx files w = (Ret self', w').
Proof.
  intros Hc.
  destruct (check_files_full files self idx w) as ([s|e] & evs & E & _ & H).
  - eauto.
  - destruct (console_ok_raises Hc H).
Qed.

Lemma run_completes (self : Checker) (w : World) :
  console_ok env -> files_ok env ->
  exists self' w', run env self w = (Ret self', w').
Proof.
  intros Hc Hf. destruct (run_full self w) as ([s|e] & evs & E & H).
  - eauto.
  - destruct (output_ok_raises Hc Hf (proj1 H)).
Qed.

Lemma init_fresh (dir : str) (rec : bool) (report : option str)
  (w w' : World) (self : Checker) :
  init env dir rec report w = (Ret self, w') -> fresh self /\ w' = w.
Proof.
  unfold init. destruct (negb _); [discriminate|].
  intros H; injection H as <- <-. repeat split.
Qed.

Lemma generate_report_length (self : Checker) :
  length (generate_report self) = 12 + length (results self).
Proof.
  unfold generate_report. rewrite length_app, length_map. reflexivity.
Qed.

(** The counters of a checker that [run] or [run_checks] has finished
    with, when it started from a scan whose counters were consistent. *)
Lemma counters_after_checks (self1 self' : Checker) :
  total_count self1 = len (media_files self1) ->
  (media_files self1 = [] ->
   results self1 = [] /\ ok_count self1 = 0%Z /\ error_count self1 = 0%Z) ->
  match media_files self1 with
  | [] => self' = self1
  | _ :: _ =>
      exists rows,
        length rows = length (media_files self1)
        /\ self' = set_error_count
                     (set_results self1 rows (count_ok rows))
                     (total_count self1 - count_ok rows)%Z
  end ->
  total_count self' = (ok_count self' + error_count self')%Z
  /\ ok_count self' = count_ok (results self')
  /\ length (results self') = length (media_files self')
  /\ media_files self' = media_files self1.
Proof.
  intros Htotal Hempty Hself.
  destruct (media_files self1) as [|f fs] eqn:Efiles.
  - subst self'. destruct (Hempty eq_refl) as (Hr & Hok & Herr).
    rewrite Htotal, Hok, Herr, Hr, Efiles. repeat split.
  - destruct Hself as (rows & L & ->). cbn.
    split; [lia | split; [reflexivity | split; [|exact Efiles]]].
    rewrite L, Efiles. reflexivity.
Qed.

Lemma scan_of_fresh (self : Checker) :
  fresh self ->
  let self1 := scan_media_files env self in
  total_count self1 = len (media_files self1)
  /\ (media_files self1 = [] ->
      results self1 = [] /\ ok_count self1 = 0%Z /\ error_count self1 = 0%Z).
Proof.
  intros (Hm & Hr & Ht & Hok & Herr). split; [reflexivity|].
  intros _. repeat split; assumption.
Qed.

(** A checker that [run_checks] has finished with, for a new checker. *)
Lemma run_checks_of_fresh (self self' : Checker) (w w' : World) :
  fresh self ->
  run_checks env self w = (Ret self', w') ->
  let self1 := scan_media_files env self in
  match media_files self1 with
  | [] => self' = self1
  | _ :: _ =>
      exists rows,
        Forall2 (row_for env (directory self1)) (media_files self1) rows
        /\ self' = set_error_count
                     (set_results self1 rows (count_ok rows))
                     (total_count self1 - count_ok rows)%Z
  end.
Proof.
  intros (Hm & _) E self1.
  destruct (run_checks_full self w) as (r & evs & E' & _ & H).
  rewrite E in E'. injection E' as <- _.
  rewrite Hm in H. exact H.
Qed.

(** The same for [run], for any checker. *)
Lemma run_result (self self' : Checker) (w w' : World) :
  run env self w = (Ret self', w') ->
  let self1 := scan_media_files env self in
  match media_files self1 with
  | [] => self' = self1
  | _ :: _ =>
      exists rows,
        Forall2 (row_for env (directory self1)) (media_files self1) rows
        /\ self' = set_error_count
                     (set_results self1 rows (count_ok rows))
                     (total_count self1 - count_ok rows)%Z
  end.
Proof.
  intros E self1.
  destruct (run_full self w) as (r & evs & E' & H).
  rewrite E in E'. injection E' as <- _.
  fold self1 in H.
  destruct (media_files self1) as [|f fs].
  - exact (proj1 H).
  - destruct H as (rows & mid & R & Hs & _). exists rows. auto.
Qed.

Lemma rows_counted (self1 self' : Checker) :
  match media_files self1 with
  | [] => self' = self1
  | _ :: _ =>
      exists rows,
        Forall2 (row_for env (directory self1)) (media_files self1) rows
        /\ self' = set_error_count
                     (set_results self1 rows (count_ok rows))
                     (total_count self1 - count_ok rows)%Z
  end ->
  match media_files self1 with
  | [] => self' = self1
  | _ :: _ =>
      exists rows,
        length rows = length (media_files self1)
        /\ self' = set_error_count
                     (set_results self1 rows (count_ok rows))
                     (total_count self1 - count_ok rows)%Z
  end.
Proof.
  destruct (media_files self1) as [|f fs]; [auto|].
  intros (rows & R & H). exists rows. split; [|exact H].
  symmetry. exact (Forall2_length R).
Qed.


(** *** The lines of the report *)

Lemma report_header_newlines (self : Checker) :
  list_sum (map count_nl (report_header self)) = 1 + count_nl (directory self).
Proof.
  unfold report_header. cbn [map list_sum fold_right].
  rewrite !count_nl_app, !count_nl_str_of_Z.
  set (n := count_nl (directory self)). clearbody n.
  destruct (recursive self); vm_compute; change (n + 1 = S n); lia.
Qed.

Lemma report_lines (self : Checker) :
  line_count (join nl (generate_report self))
  = 13 + length (results self) + count_nl (directory self)
    + list_sum (map (fun r => count_nl (report_row r)) (results self)).
Proof.
  unfold line_count. rewrite count_nl_join.
  - rewrite generate_report_length. unfold generate_report.
    rewrite map_app, list_sum_app, report_header_newlines, map_map. lia.
  - unfold generate_report, report_header. discriminate.
Qed.

(** C3: a checker that was just constructed and then run, through [run]
    or through [run_checks] directly: whenever the run completes,
    total_count = ok_count + error_count, whatever the scan found and
    however many checks failed; moreover ok_count is the number of rows
    with the glyph of success and there is one row per scanned file.  The
    run does complete when the console takes every text and the report
    file can be written; the only exceptions that cut it short are those
    a [print] or the writing of the report file raises. *)
Theorem counts_add_up (dir : str) (rec : bool) (report : option str)
  (w0 w : World) (self : Checker) :
  init env dir rec report w0 = (Ret self, w) ->
  (forall self' w',
      run env self w = (Ret self', w') ->
      total_count self' = (ok_count self' + error_count self')%Z
      /\ ok_count self' = count_ok (results self')
      /\ length (results self') = length (media_files self'))
  /\ (forall self' w',
         run_checks env self w = (Ret self', w') ->
         total_count self' = (ok_count self' + error_count self')%Z
         /\ ok_count self' = count_ok (results self')
         /\ length (results self') = length (media_files self'))
  /\ (console_ok env ->
      (exists self' w', run_checks env self w = (Ret self', w'))
      /\ (files_ok env -> exists self' w', run env self w = (Ret self', w')))
  /\ (forall e w', run env self w = (Raise e, w') -> output_raises env w' e)
  /\ (forall e w',
         run_checks env self w = (Raise e, w') -> console_raises env w' e).
Proof.
  intros Hinit. destruct (init_fresh _ _ _ _ Hinit) as (Hfresh & _).
  destruct (scan_of_fresh Hfresh) as (Htotal & Hempty).
  split; [|split; [|split; [|split]]].
  - intros self' w' E.
    pose proof (rows_counted _ _ (run_result _ _ E)) as Hself.
    destruct (counters_after_checks _ _ Htotal Hempty Hself)
      as (H1 & H2 & H3 & _).
    repeat split; assumption.
  - intros self' w' E.
    pose proof (rows_counted _ _ (run_checks_of_fresh _ Hfresh E)) as Hself.
    destruct (counters_after_checks _ _ Htotal Hempty Hself)
      as (H1 & H2 & H3 & _).
    repeat split; assumption.
  - intros Hc. split; [apply run_checks_completes, Hc|].
    intros Hf. apply run_completes; assumption.
  - intros e w' E. destruct (run_full self w) as (r & evs & E' & H).
    rewrite E in E'. injection E' as <- ->. exact (proj1 H).
  - intros e w' E. destruct (run_checks_full self w) as (r & evs & E' & _ & H).
    rewrite E in E'. injection E' as <- ->. exact H.
Qed.

(** C6, as the source has it: for a checker that was just constructed
    and has run its checks over the n files of the scan,
    [generate_report] returns a list of 12 + n entries, twelve for the
    header and the separators and one per scanned file.  The ninth entry
    begins with a newline character, so the report text, which is these
    entries joined by newlines, has 13 + n lines, and one more for every
    newline character inside the directory name or inside a row. *)
Theorem report_line_count (dir : str) (rec : bool) (report : option str)
  (w0 w : World) (self : Checker) :
  init env dir rec report w0 = (Ret self, w) ->
  (forall self' w',
      run_checks env self w = (Ret self', w') ->
      let n := length (media_files self') in
      let text := join nl (generate_report self') in
      media_files self' = media_files (scan_media_files env self)
      /\ length (generate_report self') = 12 + n
      /\ nth 8 (generate_report self') [] = nl ++ u "详细结果:"
      /\ line_count text
         = 13 + n + count_nl (directory self')
           + list_sum (map (fun r => count_nl (report_row r))
                           (results self'))
      /\ 13 + n <= line_count text)
  /\ (console_ok env ->
      exists self' w', run_checks env self w = (Ret self', w')).
Proof.
  intros Hinit. destruct (init_fresh _ _ _ _ Hinit) as (Hfresh & _).
  destruct (scan_of_fresh Hfresh) as (Htotal & Hempty).
  split; [|intros Hc; apply run_checks_completes, Hc].
  intros self' w' E n text.
  pose proof (rows_counted _ _ (run_checks_of_fresh _ Hfresh E)) as Hself.
  destruct (counters_after_checks _ _ Htotal Hempty Hself)
    as (_ & _ & H3 & H4).
  pose proof (report_lines self') as Hl. rewrite H3 in Hl. fold n text in Hl.
  split; [exact H4|]. split; [rewrite generate_report_length, H3; reflexivity|].
  split; [reflexivity|]. split; [exact Hl | lia].
Qed.


(** C8: the path column of a report row.  The path is shown unchanged
    when it has at most 50 characters; otherwise it is shown as three
    dots followed by its last 47 characters, 50 characters in all.  Every
    entry of the report after the twelfth starts with this display path,
    padded to width 50. *)
Theorem display_path_rule :
  (forall path : str,
      display_path path
      = if (len path <=? 50)%Z then path
        else u "..." ++ rev (firstn 47 (rev path)))
  /\ (forall path : str,
         (50 < len path)%Z -> length (display_path path) = 50)
  /\ (forall self : Checker,
         skipn 12 (generate_report self)
         = map (fun res =>
                  ljust 50 (display_path (row_path res)) ++ u " "
                    ++ ljust 8 (row_type res) ++ u " "
                    ++ ljust 10 (row_status res) ++ u " "
                    ++ row_message res)
               (results self)).
Proof.
  assert (Hlast : forall path : str,
             slice_last 47 path = rev (firstn 47 (rev path))).
  { intros path. unfold slice_last.
    rewrite firstn_rev, rev_involutive. reflexivity. }
  split; [|split].
  - intros path. unfold display_path. rewrite Hlast. reflexivity.
  - intros path Hlong. unfold display_path, len in *.
    replace (Z.of_nat (length path) <=? 50)%Z with false
      by (symmetry; apply Z.leb_gt; lia).
    unfold slice_last. rewrite length_app, length_skipn.
    change (length (u "...")) with 3. lia.
  - intros self. reflexivity.
Qed.

(** C9, as the source has it: both checks always return a pair
    (ok, message); no exception leaves them, whatever the file system,
    Pillow, OpenCV or [ffprobe] do.  They answer ok=true for exactly the
    files that pass every step, so every failure (a file that is missing
    or may not be read, data that does not decode, an invalid dimension,
    frame count or frame rate, a probe that fails or reports no positive
    duration, a frame that cannot be read) comes back as ok=false; the
    handlers answer ok=false with the message of the exception's class.
    Hence no check ever aborts the loop of [run_checks]: the loop adds one
    row per file, and the only exceptions that leave it are those one of
    its two [print]s raises.  With a console that takes every text the
    loop gets through every list of files. *)
Theorem checks_never_raise (file_path : str) (w : World) :
  (exists ok msg w',
      check_image_integrity env file_path w = (Ret (ok, msg), w')
      /\ (ok = true <-> image_sound env file_path))
  /\ (exists ok msg w',
         check_video_integrity env file_path w = (Ret (ok, msg), w')
         /\ (ok = true <-> video_sound env file_path w))
  /\ (forall e,
         image_handlers e w = (Ret (false, image_failure e), w)
         /\ video_handlers e w = (Ret (false, video_failure e), w))
  /\ (forall self idx files,
         exists r evs,
           check_files env self idx files w = (r, w ++ evs)
           /\ match r with
              | Ret self' =>
                  exists rows,
                    results self' = results self ++ rows
                    /\ length rows = length files
              | Raise e => console_raises env (w ++ evs) e
              end)
  /\ (console_ok env ->
      forall self idx files,
        exists self' w', check_files env self idx files w = (Ret self', w')).
Proof.
  split; [|split; [|split; [|split]]].
  - apply check_image_sound.
  - apply check_video_sound.
  - intros e. split;
      [apply image_handlers_failure | apply video_handlers_failure].
  - intros self idx files.
    destruct (check_files_full files self idx w) as (r & evs & E & _ & H).
    exists r, evs. split; [exact E|].
    destruct r as [self'|e]; [|exact H].
    destruct H as (rows & X & R). exists rows.
    split; [unfold extends_by in X; subst self'; reflexivity|].
    symmetry. exact (Forall2_length R).
  - intros Hc self idx files. apply check_files_completes, Hc.
Qed.

End RunFacts.

Lemma counts_add_up_witness :
  exists self' w',
    run sample_env sample_checker [] = (Ret self', w')
    /\ total_count self' = (ok_count self' + error_count self')%Z.
Proof.
  destruct (@counts_add_up builtins sample_env root false None [] []
              sample_checker eq_refl) as (H & _).
  assert (E : exists s w', run sample_env sample_checker [] = (Ret s, w'))
    by (vm_compute; eexists _, _; reflexivity).
  destruct E as (s & w' & E). exists s, w'.
  split; [exact E | exact (proj1 (H s w' E))].
Defined.

Lemma report_line_count_witness :
  exists self' w',
    run_checks sample_env sample_checker [] = (Ret self', w')
    /\ length (generate_report self') = 12 + length (media_files self')
    /\ 13 + length (media_files self')
       <= line_count (join nl (generate_report self')).
Proof.
  destruct (@report_line_count builtins sample_env root false None [] []
              sample_checker eq_refl) as (H & _).
  assert (E : exists s w',
             run_checks sample_env sample_checker [] = (Ret s, w'))
    by (vm_compute; eexists _, _; reflexivity).
  destruct E as (s & w' & E). exists s, w'.
  destruct (H s w' E) as (_ & H2 & _ & _ & H5).
  split; [exact E | split; [exact H2 | exact H5]].
Defined.

(** C6 as worded does not hold: the sample run checks 10 files, its
    report is a list of 22 entries, and the text of the report has 23
    lines, because the ninth entry begins with a newline. *)
Lemma report_text_has_one_more_line :
  exists c w',
    run_checks sample_env sample_checker [] = (Ret c, w')
    /\ length (media_files c) = 10
    /\ length (generate_report c) = 22
    /\ line_count (join nl (generate_report c)) = 23.
Proof.
  eexists _, _. split; [vm_compute; reflexivity|].
  split; [|split]; vm_compute; reflexivity.
Qed.


(** C9 as worded does not hold in its last part: the checks never raise,
    yet one file can abort the scan of the remaining ones.  The second of
    the three files has a name the console cannot encode; the [print] of
    its progress line raises, the exception leaves [run_checks], and the
    third file is never opened. *)
Lemma unprintable_name_aborts_scan :
  media_files (scan_media_files Faulty.env sample_checker)
  = [u "/media/cut.png"; u "/media/" ++ Faulty.latin1_name; u "/media/b.jpg"]
  /\ exists e w',
      run_checks Faulty.env sample_checker [] = (Raise e, w')
      /\ In (EvImageOpen (u "/media/cut.png")) w'
      /\ ~ In (EvImageOpen (u "/media/b.jpg")) w'.
Proof.
  split; [vm_compute; reflexivity|].
  eexists _, _. split; [vm_compute; reflexivity|]. split.
  - vm_compute. auto 10.
  - vm_compute. intros H.
    repeat (destruct H as [H|H]; [discriminate H|]). exact H.
Qed.

(** ** Concrete runs *)

(** The sample directory holds ten media files, of which six fail their
    check; [main] exits with status 0; the report has 22 entries and 23
    lines. *)
Example sample_run :
  match fst (main sample_env sample_args []) with
  | Ret (Some c, status) =>
      status = 0%Z /\ total_count c = 10%Z /\ ok_count c = 4%Z
      /\ error_count c = 6%Z /\ length (generate_report c) = 22
      /\ line_count (join nl (generate_report c)) = 23
      /\ live_captures (snd (main sample_env sample_args [])) = []
  | _ => False
  end.
Proof. vm_compute. repeat split. Qed.

Example missing_directory_run :
  main sample_env missing_args [] =
    (Ret (None, 1%Z),
     [EvPrint (u "错误：目录 '/nowhere' 不存在或不是有效目录")]).
Proof. vm_compute. reflexivity. Qed.

(** A console and files that take every text exist: seen through them,
    [main] exits with status 0 also in the directory whose file names
    cannot be encoded. *)
Example lenient_output :
  console_ok (lenient Faulty.env) /\ files_ok (lenient Faulty.env)
  /\ exit_status (fst (main (lenient Faulty.env) sample_args [])) = 0%Z.
Proof.
  split; [intros w text; reflexivity|].
  split; [intros w file; split; [|intros text]; reflexivity|].
  vm_compute. reflexivity.
Qed.

(** A report path at which no file can be created: [open] raises
    [PermissionError], which [main] does not catch; the process ends with
    the traceback and status 1, after all files were checked. *)
Example unwritable_report_run :
  let args := {| arg_dir := root; arg_recursive := false;
                 arg_report := Some unwritable |} in
  fst (main sample_env args [])
  = Raise (PermissionError
             (u "[Errno 13] Permission denied: '/readonly/out.txt'"))
  /\ exit_status (fst (main sample_env args [])) = 1%Z
  /\ opens (snd (main sample_env args [])) = []
  /\ length (filter (fun ev => match ev with
                               | EvImageOpen _ | EvProbe _ => true
                               | _ => false
                               end) (snd (main sample_env args []))) = 10.
Proof. cbv zeta. split; [|split; [|split]]; vm_compute; reflexivity. Qed.

(** A row that cannot be encoded: the console replaces what it cannot
    encode, the report file is strict.  [f.write] raises
    [UnicodeEncodeError], the file stays empty, and [main] exits with
    status 1. *)
Example empty_report_file :
  let env := with_lenient_console Faulty.env in
  exit_status (fst (main env Faulty.report_args [])) = 1%Z
  /\ opens (snd (main env Faulty.report_args [])) = [u "out.txt"]
  /\ writes (snd (main env Faulty.report_args [])) = [].
Proof. cbv zeta. split; [|split]; vm_compute; reflexivity. Qed.

Example well_formed_jpeg :
  fst (check_image_integrity sample_env (u "/media/a.jpg") []) =
    Ret (true, u "图片正常").
Proof. vm_compute. reflexivity. Qed.

Example truncated_png :
  fst (check_image_integrity sample_env (u "/media/cut.png") []) =
    Ret (false, u "损坏或不支持的图片格式: image file is truncated").
Proof. vm_compute. reflexivity. Qed.

Example healthy_video :
  fst (check_video_integrity sample_env (u "/media/clip.mp4") []) =
    Ret (true, u "视频正常 (时长: 12.5秒, 分辨率: 1280x720, 帧数: 300)").
Proof. vm_compute. reflexivity. Qed.

Example zero_byte_video_without_ffprobe :
  fst (check_video_integrity
         (env_of root [(u "zero.mkv",
                        VideoFile {| v_probe := ffprobe_missing;
                                     v_new := Ret tt;
                                     v_opened := Ret false;
                                     v_prop := fun _ => Ret float_zero;
                                     v_seek := fun _ => Ret false;
                                     v_read := fun _ _ =>
                                                 Ret (false, None) |})])
         (u "/media/zero.mkv") []) =
    Ret (false, u "无法打开视频文件，可能已损坏").
Proof. vm_compute. reflexivity. Qed.

Example long_path_display :
  display_path
    (u "holiday/2023/summer/beach/day-one/morning/IMG_20230714_081502.jpg")
  = u "...r/beach/day-one/morning/IMG_20230714_081502.jpg".
Proof. vm_compute. reflexivity. Qed.

(** The counters add up after a run that started from a new checker.  A
    checker object that is run a second time, after its directory was
    emptied, returns from [run] before the counters are reset and keeps
    the [ok_count] of its first run next to a [total_count] of 0. *)
Example second_run_on_emptied_directory :
  match fst (run sample_env sample_checker []) with
  | Ret c =>
      match fst (run (env_of root []) c []) with
      | Ret c' => total_count c' = 0%Z /\ ok_count c' = 4%Z
                  /\ error_count c' = 6%Z
      | Raise _ => False
      end
  | Raise _ => False
  end.
Proof. vm_compute. repeat split. Qed.

(** ** [scan_media_files] *)

Section ScanFacts.

Context {rt : PyBuiltins} (env : Env).

Lemma str_in_In (x : str) (t : list str) : str_in x t = true <-> In x t.
Proof.
  unfold str_in. rewrite existsb_exists. split.
  - intros (y & Hy & E). apply str_eqb_eq in E. subst y. exact Hy.
  - intros H. exists x. split; [exact H | apply str_eqb_refl].
Qed.

Lemma is_media_In (file : str) :
  is_media file = true
  <-> In (file_ext_of file) (SUPPORTED_IMAGES ++ SUPPORTED_VIDEOS).
Proof.
  unfold is_media. rewrite orb_true_iff, !str_in_In, in_app_iff. tauto.
Qed.

(** The scan is sound and complete: a path is in [media_files] after the
    scan exactly when it is [os.path.join(root, file)] for a file of a
    visited directory whose lowercased extension is one of the ten
    supported ones; the directories visited are all those [os.walk]
    yields in recursive mode and only the first one otherwise; and
    [total_count] is the number of paths found. *)
Theorem scan_finds_exactly_the_media_files (self : Checker) (p : str) :
  let walked := os_walk env (directory self) in
  let visited := if recursive self then walked else firstn 1 walked in
  (In p (media_files (scan_media_files env self))
   <-> exists root files file,
        In (root, files) visited /\ In file files
        /\ In (file_ext_of file) (SUPPORTED_IMAGES ++ SUPPORTED_VIDEOS)
        /\ p = os_path_join root file)
  /\ total_count (scan_media_files env self)
     = len (media_files (scan_media_files env self)).
Proof.
  intros walked visited. split; [|reflexivity].
  change (media_files (scan_media_files env self))
    with (flat_map scan_directory visited).
  rewrite in_flat_map. split.
  - intros ([root files] & Hv & Hp). unfold scan_directory in Hp.
    cbn [fst snd] in Hp. apply in_map_iff in Hp.
    destruct Hp as (file & <- & Hf). apply filter_In in Hf.
    destruct Hf as (Hf & Hm). exists root, files, file.
    repeat split; [exact Hv | exact Hf | apply is_media_In, Hm].
  - intros (root & files & file & Hv & Hf & Hm & ->).
    exists (root, files). split; [exact Hv|].
    unfold scan_directory. cbn [fst snd]. apply in_map, filter_In.
    split; [exact Hf | apply is_media_In, Hm].
Qed.

(** A checker that is not recursive collects the media files of the top
    directory only (the first entry [os.walk] yields), in listing order,
    and these are the first paths a recursive checker of the same
    directory collects. *)
Theorem nonrecursive_scan_is_top_directory (a b : Checker) :
  directory a = directory b ->
  recursive a = false -> recursive b = true ->
  media_files (scan_media_files env a)
  = match os_walk env (directory a) with
    | [] => []
    | (root, files) :: _ => map (os_path_join root) (filter is_media files)
    end
  /\ exists rest,
      media_files (scan_media_files env b)
      = media_files (scan_media_files env a) ++ rest.
Proof.
  intros Hdir Ha Hb. unfold scan_media_files. cbn [media_files set_media_files].
  rewrite Ha, Hb, <- Hdir. split.
  - destruct (os_walk env (directory a)) as [|[root files] rest]; cbn.
    + reflexivity.
    + apply app_nil_r.
  - exists (flat_map scan_directory (skipn 1 (os_walk env (directory a)))).
    rewrite <- flat_map_app, firstn_skipn. reflexivity.
Qed.

End ScanFacts.

Lemma nonrecursive_scan_is_top_directory_witness :
  media_files (scan_media_files Nested.env sample_checker)
  = [u "/media/a.jpg"; u "/media/CLIP.MP4"]
  /\ exists rest,
      media_files (scan_media_files Nested.env Nested.recursive_checker)
      = media_files (scan_media_files Nested.env sample_checker) ++ rest.
Proof.
  destruct (@nonrecursive_scan_is_top_directory builtins Nested.env
              sample_checker Nested.recursive_checker
              eq_refl eq_refl eq_refl) as (H1 & H2).
  split; [rewrite H1; vm_compute; reflexivity | exact H2].
Defined.

Example recursive_scan_run :
  media_files (scan_media_files Nested.env Nested.recursive_checker)
  = [u "/media/a.jpg"; u "/media/CLIP.MP4"; u "/media/sub/b.png"].
Proof. vm_compute. reflexivity. Qed.

(** ** More on [check_image_integrity] *)

Section ImageMore.

Context {rt : PyBuiltins} (env : Env).

Ltac run_image_check :=
  unfold check_image_integrity, try_except, with_Image_open, PIL_Image_open,
    try_finally, check_image_body, PIL_load, bind, emit, lift, ret.

(** The dimensions are tested before the pixel data is decoded: an image
    whose header gives a width or a height that is not positive is
    reported with both numbers in the message, [img.load()] is never
    called, and the file is closed. *)
Theorem invalid_dimensions_before_decode (file_path : str) (img : pil_image)
  (w : World) :
  Image_open env file_path = Ret img ->
  (img_width img <= 0 \/ img_height img <= 0)%Z ->
  check_image_integrity env file_path w =
    (Ret (false, u "无效图片尺寸: " ++ str_of_Z (img_width img) ++ u "x"
                   ++ str_of_Z (img_height img)),
     w ++ [EvImageOpen file_path; EvImageClose file_path]).
Proof.
  intros Hopen Hbad. run_image_check. rewrite Hopen.
  replace ((img_width img <=? 0)%Z || (img_height img <=? 0)%Z) with true.
  - rewrite <- app_assoc. reflexivity.
  - symmetry. apply orb_true_iff. rewrite !Z.leb_le. exact Hbad.
Qed.

(** The calls a check of an image makes, on every path: the file is
    opened once; if that raises nothing else happens; otherwise the image
    is closed as the last call, after the decode when the dimensions
    allowed one, whether the check passed, failed or raised. *)
Theorem image_closed_on_every_exit (file_path : str) (w : World) :
  exists r,
    check_image_integrity env file_path w =
      (r, w ++ match Image_open env file_path with
               | Raise _ => [EvImageOpen file_path]
               | Ret img =>
                   if (img_width img <=? 0)%Z || (img_height img <=? 0)%Z
                   then [EvImageOpen file_path; EvImageClose file_path]
                   else [EvImageOpen file_path; EvImageLoad file_path;
                         EvImageClose file_path]
               end).
Proof.
  run_image_check.
  destruct (Image_open env file_path) as [img|e].
  - destruct ((img_width img <=? 0)%Z || (img_height img <=? 0)%Z).
    + eexists. rewrite <- app_assoc. reflexivity.
    + cbv beta iota zeta. destruct (img_load img) as [[]|e].
      * repeat match goal with
               | |- context [if ?b then _ else _] => destruct b
               end;
          eexists; repeat rewrite <- app_assoc; reflexivity.
      * rewrite image_handlers_failure. repeat rewrite <- app_assoc.
        eexists; reflexivity.
  - rewrite image_handlers_failure. eexists; reflexivity.
Qed.

(** An exception raised by [Image.open], or by [img.load()] on an image
    of positive dimensions, is answered by its class: a missing file and
    a permission error have fixed messages, anything else is reported as
    corrupt or unsupported with at most 100 characters of the error
    text. *)
Theorem image_failure_messages (file_path : str) (e : exn) (w : World) :
  Image_open env file_path = Raise e
  \/ (exists img, Image_open env file_path = Ret img
                  /\ (0 < img_width img)%Z /\ (0 < img_height img)%Z
                  /\ img_load img = Raise e) ->
  fst (check_image_integrity env file_path w) =
    Ret (false,
         match e with
         | FileNotFoundError _ => u "文件不存在"
         | PermissionError _ => u "权限不足，无法读取文件"
         | _ => u "损坏或不支持的图片格式: " ++ slice_to 100 (exn_str e)
         end)
  /\ (length (slice_to 100 (exn_str e)) <= 100)%nat.
Proof.
  intros H. split; [|apply firstn_le_length].
  run_image_check.
  destruct H as [Hopen | (img & Hopen & Hw & Hh & Hload)]; rewrite Hopen.
  - rewrite image_handlers_failure. unfold image_failure.
    destruct e; reflexivity.
  - replace (img_width img <=? 0)%Z with false
      by (symmetry; apply Z.leb_gt; lia).
    replace (img_height img <=? 0)%Z with false
      by (symmetry; apply Z.leb_gt; lia).
    cbn [orb]. cbv beta iota zeta. rewrite Hload. cbv beta iota zeta.
    rewrite image_handlers_failure.
    unfold image_failure. destruct e; reflexivity.
Qed.

End ImageMore.

Lemma invalid_dimensions_before_decode_witness :
  check_image_integrity Nested.odd_env (u "/media/flat.png") [] =
    (Ret (false, u "无效图片尺寸: 0x10"),
     [EvImageOpen (u "/media/flat.png"); EvImageClose (u "/media/flat.png")]).
Proof.
  apply (@invalid_dimensions_before_decode builtins Nested.odd_env
           (u "/media/flat.png")
           {| img_width := 0; img_height := 10;
              img_format := Some (u "PNG"); img_load := Ret tt |} []).
  - reflexivity.
  - left. cbn. lia.
Defined.

Lemma image_failure_messages_witness :
  fst (check_image_integrity sample_env (u "/media/cut.png") []) =
    Ret (false, u "损坏或不支持的图片格式: image file is truncated")
  /\ fst (check_image_integrity sample_env (u "/media/gone.bmp") []) =
       Ret (false, u "文件不存在").
Proof.
  split.
  - apply (proj1 (@image_failure_messages builtins sample_env
                    (u "/media/cut.png")
                    (OtherException (u "image file is truncated")) []
                    (or_intror
                       (ex_intro _
                          {| img_width := 32; img_height := 32;
                             img_format := Some (u "PNG");
                             img_load := Raise (OtherException
                                                  (u "image file is truncated")) |}
                          (conj eq_refl
                             (conj eq_refl (conj eq_refl eq_refl))))))).
  - apply (proj1 (@image_failure_messages builtins sample_env
                    (u "/media/gone.bmp") no_such_file []
                    (or_introl eq_refl))).
Defined.

(** ** More on [check_video_integrity] *)

Section VideoMore.

Context {rt : PyBuiltins} (env : Env).

(** A file OpenCV cannot open: the check reports it, reads no property
    and no frame of it, and releases the handle. *)
Theorem unopened_video_rejected (file_path : str) (w w1 : World)
  (duration : float) :
  probe_duration env file_path w = (Ret (Normal duration), w1) ->
  VideoCapture_new env file_path = Ret tt ->
  VideoCapture_isOpened env file_path = Ret false ->
  check_video_integrity env file_path w =
    (Ret (false, u "无法打开视频文件，可能已损坏"),
     w1 ++ [EvCapNew (length w1) file_path; EvCapIsOpened (length w1);
            EvCapRelease (length w1)]).
Proof.
  intros Hprobe Hnew Hopened.
  unfold check_video_integrity. rewrite (bind_Ret _ _ _ Hprobe).
  set (cap := {| cap_id := length w1; cap_path := file_path |}).
  assert (Hbody :
    check_video_body env duration cap
      (w1 ++ [EvCapNew (length w1) file_path]) =
      (Ret (false, u "无法打开视频文件，可能已损坏"),
       (w1 ++ [EvCapNew (length w1) file_path])
         ++ [EvCapIsOpened (cap_id cap)])).
  { unfold check_video_body.
    rewrite (bind_Ret _ _ _ (eq_trans (cap_isOpened_run env cap _)
                               (f_equal (fun x => (x, _)) Hopened))).
    reflexivity. }
  rewrite (@check_video_frames_acquired rt env duration file_path w1 _ _
             Hnew Hbody).
  repeat rewrite <- app_assoc. reflexivity.
Qed.

(** The four properties are read before any of them is judged, and a
    video with an invalid one is rejected without a frame being sought:
    the frame count is judged first, then the frame rate, then the
    dimensions, and the message names the offending values. *)
Theorem invalid_metric_rejected (file_path : str) (w w1 : World)
  (duration fps xfc xw xh : float) (frame_count width height : Z) :
  probe_duration env file_path w = (Ret (Normal duration), w1) ->
  VideoCapture_new env file_path = Ret tt ->
  VideoCapture_isOpened env file_path = Ret true ->
  VideoCapture_get env file_path CAP_PROP_FRAME_COUNT = Ret xfc ->
  int_of_float xfc = Ret frame_count ->
  VideoCapture_get env file_path CAP_PROP_FPS = Ret fps ->
  VideoCapture_get env file_path CAP_PROP_FRAME_WIDTH = Ret xw ->
  int_of_float xw = Ret width ->
  VideoCapture_get env file_path CAP_PROP_FRAME_HEIGHT = Ret xh ->
  int_of_float xh = Ret height ->
  (frame_count <= 0)%Z \/ float_le0 fps = true
  \/ (width <= 0)%Z \/ (height <= 0)%Z ->
  check_video_integrity env file_path w =
    (Ret (false,
          if (frame_count <=? 0)%Z
          then u "无效帧数: " ++ str_of_Z frame_count
          else if float_le0 fps then u "无效帧率: " ++ float_str fps
          else u "无效视频尺寸: " ++ str_of_Z width ++ u "x"
                 ++ str_of_Z height),
     w1 ++ [EvCapNew (length w1) file_path; EvCapIsOpened (length w1);
            EvCapGet (length w1) CAP_PROP_FRAME_COUNT;
            EvCapGet (length w1) CAP_PROP_FPS;
            EvCapGet (length w1) CAP_PROP_FRAME_WIDTH;
            EvCapGet (length w1) CAP_PROP_FRAME_HEIGHT;
            EvCapRelease (length w1)]).
Proof.
  intros Hprobe Hnew Hopened Hfc Hfci Hfps Hw Hwi Hh Hhi Hbad.
  unfold check_video_integrity. rewrite (bind_Ret _ _ _ Hprobe).
  set (cap := {| cap_id := length w1; cap_path := file_path |}).
  set (w2 := w1 ++ [EvCapNew (length w1) file_path]).
  assert (Hbody :
    check_video_body env duration cap w2 =
      (Ret (false,
            if (frame_count <=? 0)%Z
            then u "无效帧数: " ++ str_of_Z frame_count
            else if float_le0 fps then u "无效帧率: " ++ float_str fps
            else u "无效视频尺寸: " ++ str_of_Z width ++ u "x"
                   ++ str_of_Z height),
       ((((w2 ++ [EvCapIsOpened (cap_id cap)])
            ++ [EvCapGet (cap_id cap) CAP_PROP_FRAME_COUNT])
           ++ [EvCapGet (cap_id cap) CAP_PROP_FPS])
          ++ [EvCapGet (cap_id cap) CAP_PROP_FRAME_WIDTH])
         ++ [EvCapGet (cap_id cap) CAP_PROP_FRAME_HEIGHT])).
  { unfold check_video_body.
    rewrite (bind_Ret _ _ _ (eq_trans (cap_isOpened_run env cap _)
                               (f_equal (fun x => (x, _)) Hopened))).
    cbn [negb].
    rewrite (bind_Ret _ _ _ (cap_get_int_run env cap _ _ Hfc Hfci)).
    rewrite (bind_Ret _ _ _ (cap_get_run env cap _ _ Hfps)).
    rewrite (bind_Ret _ _ _ (cap_get_int_run env cap _ _ Hw Hwi)).
    rewrite (bind_Ret _ _ _ (cap_get_int_run env cap _ _ Hh Hhi)).
    destruct (frame_count <=? 0)%Z eqn:Efc; [reflexivity|].
    destruct (float_le0 fps) eqn:Efps; [reflexivity|].
    destruct ((width <=? 0)%Z || (height <=? 0)%Z) eqn:Edim; [reflexivity|].
    exfalso. apply Z.leb_gt in Efc. apply orb_false_iff in Edim.
    destruct Edim as (Ew & Eh). apply Z.leb_gt in Ew, Eh.
    destruct Hbad as [H|[H|[H|H]]]; try lia; congruence. }
  rewrite (@check_video_frames_acquired rt env duration file_path w1 _ _
             Hnew Hbody).
  unfold w2. repeat rewrite <- app_assoc. reflexivity.
Qed.

(** What OpenCV raises is reported, never propagated: when the
    constructor raises, or when the frame count it reports cannot be
    converted to an integer, the check answers ok=false with the message
    of the exception's class.  A frame count that is NaN or infinite is
    such a case. *)
Theorem capture_errors_reported (file_path : str) (w w1 : World)
  (duration : float) (e : exn) :
  probe_duration env file_path w = (Ret (Normal duration), w1) ->
  VideoCapture_new env file_path = Raise e
  \/ (exists x, VideoCapture_new env file_path = Ret tt
                /\ VideoCapture_isOpened env file_path = Ret true
                /\ VideoCapture_get env file_path CAP_PROP_FRAME_COUNT = Ret x
                /\ int_of_float x = Raise e) ->
  fst (check_video_integrity env file_path w) =
    Ret (false,
         match e with
         | FileNotFoundError _ => u "文件不存在"
         | PermissionError _ => u "权限不足，无法读取文件"
         | _ => u "损坏或不支持的视频格式: " ++ slice_to 100 (exn_str e)
         end)
  /\ (forall x, x = S754_nan \/ (exists s, x = S754_infinity s) ->
                exists e', int_of_float x = Raise e').
Proof.
  intros Hprobe Hraise. split.
  - assert (Hmsg : video_failure e =
                   match e with
                   | FileNotFoundError _ => u "文件不存在"
                   | PermissionError _ => u "权限不足，无法读取文件"
                   | _ => u "损坏或不支持的视频格式: "
                            ++ slice_to 100 (exn_str e)
                   end) by (unfold video_failure; destruct e; reflexivity).
    rewrite <- Hmsg.
    unfold check_video_integrity. rewrite (bind_Ret _ _ _ Hprobe).
    destruct Hraise as [Hnew | (x & Hnew & Hopened & Hfc & Hint)].
    + unfold check_video_frames, try_capture, cv2_VideoCapture.
      rewrite Hnew. unfold try_finally, ret.
      rewrite video_handlers_failure. reflexivity.
    + set (cap := {| cap_id := length w1; cap_path := file_path |}).
      assert (Hbody :
        check_video_body env duration cap
          (w1 ++ [EvCapNew (length w1) file_path]) =
          (Raise e,
           ((w1 ++ [EvCapNew (length w1) file_path])
              ++ [EvCapIsOpened (cap_id cap)])
             ++ [EvCapGet (cap_id cap) CAP_PROP_FRAME_COUNT])).
      { unfold check_video_body.
        rewrite (bind_Ret _ _ _ (eq_trans (cap_isOpened_run env cap _)
                                   (f_equal (fun y => (y, _)) Hopened))).
        cbn [negb]. apply bind_Raise.
        unfold cap_get, bind, emit, lift. cbn [cap_path cap].
        rewrite Hfc, Hint. reflexivity. }
      rewrite (@check_video_frames_acquired rt env duration file_path w1 _ _
                 Hnew Hbody).
      reflexivity.
  - intros x [-> | (s & ->)]; eexists; reflexivity.
Qed.

(** Every sampled index is a frame of the video: for a positive frame
    count the three indices lie between 0 and frame_count - 1. *)
Theorem test_frames_within_video (frame_count : Z) :
  (0 < frame_count)%Z ->
  length (test_frames frame_count) = 3
  /\ Forall (fun i => (0 <= i < frame_count)%Z) (test_frames frame_count).
Proof.
  intros Hpos. split; [reflexivity|].
  assert (Hhalf : (0 <= frame_count / 2 < frame_count)%Z).
  { split; [apply Z.div_pos; lia | apply Z.div_lt_upper_bound; lia]. }
  unfold test_frames. repeat constructor; lia.
Qed.

End VideoMore.

Lemma unopened_video_rejected_witness :
  check_video_integrity Nested.odd_env (u "/media/zero.mkv") [] =
    (Ret (false, u "无法打开视频文件，可能已损坏"),
     [EvProbe (u "/media/zero.mkv")]
       ++ [EvCapNew 1 (u "/media/zero.mkv"); EvCapIsOpened 1;
           EvCapRelease 1]).
Proof.
  apply (@unopened_video_rejected builtins Nested.odd_env
           (u "/media/zero.mkv") [] [EvProbe (u "/media/zero.mkv")]
           float_zero).
  - vm_compute; reflexivity.
  - vm_compute; reflexivity.
  - vm_compute; reflexivity.
Defined.

Lemma invalid_metric_rejected_witness :
  fst (check_video_integrity sample_env (u "/media/still.avi") []) =
    Ret (false, u "无效帧率: 0.0").
Proof.
  assert (Hp : exists d,
             probe_duration sample_env (u "/media/still.avi") [] =
               (Ret (Normal d), [EvProbe (u "/media/still.avi")]))
    by (eexists; vm_compute; reflexivity).
  destruct Hp as (d & Hp).
  rewrite (@invalid_metric_rejected builtins sample_env
             (u "/media/still.avi") [] [EvProbe (u "/media/still.avi")]
             d (float_of_Z 0) (float_of_Z 10) (float_of_Z 1280)
             (float_of_Z 720) 10 1280 720 Hp).
  - vm_compute; reflexivity.
  - vm_compute; reflexivity.
  - vm_compute; reflexivity.
  - vm_compute; reflexivity.
  - vm_compute; reflexivity.
  - vm_compute; reflexivity.
  - vm_compute; reflexivity.
  - vm_compute; reflexivity.
  - vm_compute; reflexivity.
  - vm_compute; reflexivity.
  - right; left. vm_compute; reflexivity.
Defined.

Lemma capture_errors_reported_witness :
  fst (check_video_integrity Nested.odd_env (u "/media/nan.mp4") []) =
    Ret (false,
         u "损坏或不支持的视频格式: cannot convert float NaN to integer").
Proof.
  destruct (@capture_errors_reported builtins Nested.odd_env
              (u "/media/nan.mp4") [] [EvProbe (u "/media/nan.mp4")]
              float_zero
              (ValueError (u "cannot convert float NaN to integer")))
    as (H & _).
  - vm_compute; reflexivity.
  - right. exists S754_nan. repeat split; vm_compute; reflexivity.
  - rewrite H. vm_compute; reflexivity.
Defined.

Lemma test_frames_within_video_witness :
  Forall (fun i => (0 <= i < 1)%Z) (test_frames 1).
Proof. exact (proj2 (test_frames_within_video (frame_count := 1) eq_refl)). Defined.

Example test_frames_not_ordered : test_frames 6 = [0; 3; 1]%Z.
Proof. reflexivity. Qed.
(** ** More on [run_checks], [run] and [main] *)

Section RunMore.

Context {rt : PyBuiltins} (env : Env).

Lemma status_glyphs_differ :
  str_eqb STATUS_BAD STATUS_OK = false /\ str_eqb STATUS_OK STATUS_BAD = false.
Proof. split; vm_compute; reflexivity. Qed.

Lemma count_ok_bad (rows : list result_row) :
  Forall (fun r => row_status r = STATUS_OK \/ row_status r = STATUS_BAD)
         rows ->
  (count_ok rows + count_bad rows = len rows)%Z.
Proof.
  destruct status_glyphs_differ as (Hbo & Hob).
  unfold count_ok, count_bad, len.
  induction 1 as [|r rows Hr _ IH]; [reflexivity|].
  cbn [filter length]. unfold row_ok at 1.
  destruct Hr as [-> | ->].
  - rewrite str_eqb_refl, Hob. cbn [length]. lia.
  - rewrite str_eqb_refl, Hbo. cbn [length]. lia.
Qed.

Lemma rows_statuses (dir : str) (files : list str)
  (rows : list result_row) :
  Forall2 (row_for env dir) files rows ->
  Forall (fun r => row_status r = STATUS_OK \/ row_status r = STATUS_BAD)
         rows.
Proof.
  induction 1 as [|f r files rows (_ & _ & Hs) _ IH]; constructor; assumption.
Qed.

(** The rows of a run are those of the scanned files, in scan order: the
    row of a file carries its path relative to the target directory, the
    type IMAGE when its extension is an image extension and VIDEO
    otherwise, and one of the two status glyphs; [error_count] is the
    number of rows with the glyph of failure.  This holds whenever
    [run_checks] completes, which it does when the console takes every
    text. *)
Theorem rows_follow_scan_order (dir : str) (rec : bool)
  (report : option str) (w0 w : World) (self : Checker) :
  init env dir rec report w0 = (Ret self, w) ->
  (forall self' w',
      run_checks env self w = (Ret self', w') ->
      Forall2
        (fun f r =>
           row_path r = os_path_relpath env f (directory self')
           /\ row_type r = (if str_in (file_ext_of f) SUPPORTED_IMAGES
                            then u "IMAGE" else u "VIDEO")
           /\ (row_status r = STATUS_OK \/ row_status r = STATUS_BAD))
        (media_files self') (results self')
      /\ error_count self' = count_bad (results self'))
  /\ (console_ok env ->
      exists self' w', run_checks env self w = (Ret self', w')).
Proof.
  intros Hinit.
  destruct (init_fresh _ _ _ _ _ Hinit) as (Hfresh & _).
  split; [|intros Hc; apply run_checks_completes, Hc].
  intros self' w' E.
  pose proof (run_checks_of_fresh _ _ Hfresh E) as Hself. cbv zeta in Hself.
  destruct Hfresh as (Hm & Hr & Ht & Hok & Herr).
  set (self1 := scan_media_files env self) in *.
  assert (Htotal : total_count self1 = len (media_files self1))
    by reflexivity.
  destruct (media_files self1) as [|f fs] eqn:Efiles.
  - subst self'. rewrite Efiles.
    change (results self1) with (results self).
    change (error_count self1) with (error_count self).
    rewrite Hr, Herr. split; [constructor | reflexivity].
  - destruct Hself as (rows & R & ->).
    cbn [media_files results error_count directory set_error_count
         set_results].
    rewrite Efiles. split; [exact R|].
    pose proof (count_ok_bad (rows_statuses R)) as Hc.
    pose proof (Forall2_length R) as Hl.
    rewrite Htotal. unfold len in *. cbn [length] in *. lia.
Qed.

Lemma display_path_length (path : str) : length (display_path path) <= 50.
Proof.
  unfold display_path, len.
  destruct (Z.of_nat (length path) <=? 50)%Z eqn:E.
  - apply Z.leb_le in E. lia.
  - apply Z.leb_gt in E. unfold slice_last.
    rewrite length_app, length_skipn.
    change (length (u "...")) with 3. lia.
Qed.

Lemma ljust_length (n : nat) (s : str) :
  length s <= n -> length (ljust n s) = n.
Proof.
  intros H. unfold ljust. rewrite length_app, repeat_length. lia.
Qed.

(** The columns of the rows of a run line up: in every row the path
    column, the type column and the status column take 50, 8 and 10
    characters, each followed by one space, so that the message starts at
    character 71.  This holds whenever [run_checks] completes, which it
    does when the console takes every text. *)
Theorem report_columns_aligned (dir : str) (rec : bool)
  (report : option str) (w0 w : World) (self : Checker) :
  init env dir rec report w0 = (Ret self, w) ->
  (forall self' w',
      run_checks env self w = (Ret self', w') ->
      forall res, In res (results self') ->
        exists path_col type_col status_col,
          report_row res
          = path_col ++ u " " ++ type_col ++ u " " ++ status_col ++ u " "
              ++ row_message res
          /\ length path_col = 50 /\ length type_col = 8
          /\ length status_col = 10)
  /\ (console_ok env ->
      exists self' w', run_checks env self w = (Ret self', w')).
Proof.
  intros Hinit.
  destruct (init_fresh _ _ _ _ _ Hinit) as (Hfresh & _).
  split; [|intros Hc; apply run_checks_completes, Hc].
  intros self' w' E res Hin.
  pose proof (run_checks_of_fresh _ _ Hfresh E) as Hself. cbv zeta in Hself.
  destruct Hfresh as (Hm & Hr & _).
  assert (Hrow : (row_type res = u "IMAGE" \/ row_type res = u "VIDEO")
                 /\ (row_status res = STATUS_OK
                     \/ row_status res = STATUS_BAD)).
  { set (self1 := scan_media_files env self) in *.
    destruct (media_files self1) as [|f fs].
    - subst self'. change (results self1) with (results self) in Hin.
      rewrite Hr in Hin. destruct Hin.
    - destruct Hself as (rows & R & ->).
      cbn [results set_error_count set_results] in Hin.
      clear - R Hin. induction R as [|f0 r fl rl (_ & Ht & Hs) _ IH].
      + destruct Hin.
      + destruct Hin as [<- | Hin]; [|exact (IH Hin)].
        split; [|exact Hs]. rewrite Ht. unfold file_type_of.
        destruct (str_in _ _); [left | right]; reflexivity. }
  destruct Hrow as (Ht & Hs).
  exists (ljust 50 (display_path (row_path res))),
    (ljust 8 (row_type res)), (ljust 10 (row_status res)).
  split; [reflexivity|]. split; [|split].
  - apply ljust_length, display_path_length.
  - apply ljust_length. destruct Ht as [-> | ->]; vm_compute; lia.
  - apply ljust_length. destruct Hs as [-> | ->]; vm_compute; lia.
Qed.

Lemma balanced_try_except {A} (m : M A) (h : exn -> M A) :
  balanced m -> (forall e, balanced (h e)) -> balanced (try_except m h).
Proof.
  intros Hm Hh w. unfold try_except.
  destruct (Hm w) as (evs1 & E1 & L1).
  destruct (m w) as [[a|e] w1]; simpl in E1; subst w1.
  - exists evs1; auto.
  - destruct (Hh e (w ++ evs1)) as (evs2 & E2 & L2).
    exists (evs1 ++ evs2). rewrite E2, app_assoc. split; [reflexivity|].
    rewrite live_captures_app, L1. exact L2.
Qed.

Lemma run_checks_balanced (self : Checker) : balanced (run_checks env self).
Proof.
  unfold run_checks. cbv zeta.
  destruct (media_files _) as [|f fs]; [apply balanced_ret|].
  apply balanced_bind; [apply check_files_balanced|].
  intros s. apply balanced_ret.
Qed.

Lemma write_text_file_balanced (file text : str) :
  balanced (write_text_file env file text).
Proof.
  apply balanced_of_neutral. intros w.
  destruct (write_text_file_cases env file text w)
    as [E | [(e & _ & E) | (e & _ & E)]]; rewrite E; cbn [snd].
  - eexists; split; [reflexivity | repeat constructor].
  - exists []; rewrite app_nil_r; split; [reflexivity | constructor].
  - eexists; split; [reflexivity | repeat constructor].
Qed.

Lemma run_balanced (self : Checker) : balanced (run env self).
Proof.
  unfold run. apply balanced_bind; [apply balanced_print|]. intros _.
  cbv zeta. destruct (media_files _) as [|f fs].
  - apply balanced_bind; [apply balanced_print|]. intros _.
    apply balanced_ret.
  - apply balanced_bind; [apply balanced_print|]. intros _.
    apply balanced_bind; [apply run_checks_balanced|]. intros s2.
    apply balanced_bind; [apply balanced_print|]. intros _.
    apply balanced_bind; [|intros _; apply balanced_ret].
    destruct (truthy _); [|apply balanced_print].
    unfold save_report. destruct (report_file s2) as [[|c f0]|];
      try apply balanced_ret.
    apply balanced_bind; [apply write_text_file_balanced|].
    intros _. apply balanced_print.
Qed.

(** No capture outlives the program: whatever the directory holds and
    whatever the libraries answer, among the events of a whole run of
    [main] every capture that was opened has been released. *)
Theorem main_leaves_no_capture (args : Args) (w : World) :
  exists r evs,
    main env args w = (r, w ++ evs) /\ live_captures evs = [].
Proof.
  assert (Hb : balanced (main env args)).
  { unfold main. apply balanced_try_except.
    - apply balanced_bind.
      + unfold init. destruct (negb _);
          apply balanced_of_neutral;
          [apply appends_raise | apply appends_ret].
      + intros c. apply balanced_bind; [apply run_balanced|].
        intros c'. apply balanced_ret.
    - intros e. destruct e;
        try (apply balanced_of_neutral, appends_raise).
      apply balanced_bind; [apply balanced_print|].
      intros _; apply balanced_ret. }
  destruct (Hb w) as (evs & E & L).
  destruct (main env args w) as [r w']. simpl in E. subst w'.
  exists r, evs. split; [reflexivity | exact L].
Qed.


(** A run that completes starts afresh when it finds media files: the
    rows and counters of an earlier run of the same checker are
    discarded, there is one row per file found and the counters agree
    with the rows.  When it finds none it prints two lines and returns
    at once, and then the rows, [ok_count] and [error_count] are what
    they were before, beside a [total_count] of 0.  A run completes
    whenever the console takes every text and the report file can be
    written. *)
Theorem run_starts_afresh (self : Checker) (w : World) :
  (forall self' w',
      run env self w = (Ret self', w') ->
      match media_files (scan_media_files env self) with
      | [] =>
          results self' = results self
          /\ ok_count self' = ok_count self
          /\ error_count self' = error_count self
          /\ total_count self' = 0%Z
          /\ exists line,
              w' = w ++ [EvPrint line; EvPrint (u "未发现支持的媒体文件")]
      | _ :: _ =>
          length (results self') = length (media_files self')
          /\ ok_count self' = count_ok (results self')
          /\ total_count self' = (ok_count self' + error_count self')%Z
      end)
  /\ (console_ok env -> files_ok env ->
      exists self' w', run env self w = (Ret self', w')).
Proof.
  split; [|intros Hc Hf; apply run_completes; assumption].
  intros self' w' E.
  destruct (run_full env self w) as (r & evs & E' & Hcase).
  rewrite E in E'. injection E' as <- ->.
  set (self1 := scan_media_files env self) in *.
  assert (Htotal : total_count self1 = len (media_files self1))
    by reflexivity.
  destruct (media_files self1) as [|f fs] eqn:Efiles.
  - destruct Hcase as (-> & ->). rewrite Htotal.
    repeat split. eexists; reflexivity.
  - destruct Hcase as (rows & mid & R & -> & _ & _).
    cbn [results media_files ok_count total_count error_count
         set_error_count set_results].
    rewrite Efiles. repeat split; [|lia].
    symmetry. exact (Forall2_length R).
Qed.

End RunMore.

Lemma rows_follow_scan_order_witness :
  exists self' w',
    run_checks sample_env sample_checker [] = (Ret self', w')
    /\ error_count self' = count_bad (results self').
Proof.
  destruct (@rows_follow_scan_order builtins sample_env root false None
              [] [] sample_checker eq_refl) as (H & _).
  assert (E : exists s w',
             run_checks sample_env sample_checker [] = (Ret s, w'))
    by (vm_compute; eexists _, _; reflexivity).
  destruct E as (s & w' & E). exists s, w'.
  split; [exact E | exact (proj2 (H s w' E))].
Defined.

Lemma report_columns_aligned_witness :
  exists self' w',
    run_checks sample_env sample_checker [] = (Ret self', w')
    /\ forall res, In res (results self') ->
         exists path_col type_col status_col,
           report_row res
           = path_col ++ u " " ++ type_col ++ u " " ++ status_col ++ u " "
               ++ row_message res
           /\ length path_col = 50 /\ length type_col = 8
           /\ length status_col = 10.
Proof.
  destruct (@report_columns_aligned builtins sample_env root false None
              [] [] sample_checker eq_refl) as (H & _).
  assert (E : exists s w',
             run_checks sample_env sample_checker [] = (Ret s, w'))
    by (vm_compute; eexists _, _; reflexivity).
  destruct E as (s & w' & E). exists s, w'.
  split; [exact E | exact (H s w' E)].
Defined.

(** With [--report out.txt] the sample run writes that one file; its
    first rows read as follows. *)
Example sample_report_file :
  map fst (writes (snd (run sample_env Nested.reporting_checker [])))
  = [u "out.txt"]
  /\ opens (snd (run sample_env Nested.reporting_checker []))
     = [u "out.txt"]
  /\ match fst (run sample_env Nested.reporting_checker []) with
     | Ret c =>
         map row_path (firstn 3 (results c))
         = [u "a.jpg"; u "photo.jpg"; u "photo.jpeg"]
         /\ map row_type (results c)
            = [u "IMAGE"; u "IMAGE"; u "IMAGE"; u "IMAGE"; u "IMAGE";
               u "VIDEO"; u "VIDEO"; u "VIDEO"; u "VIDEO"; u "VIDEO"]
     | Raise _ => False
     end.
Proof. vm_compute. repeat split. Qed.
